(** * LLM Router Python bindings: request correlation, streaming and retry

    A shallow embedding of the asynchronous core of
    [bindings/python/llm_runner_router]:

    - [exceptions.py]: the error kinds and the status-code table;
    - [models.py]: the two response models built by the clients;
    - [websocket_client.py]: the pending-request table, the receive loop
      and the two dispatchers ([_send_request], [stream_inference]);
    - [async_client.py]: the retrying request path and the chunked
      streaming loop.

    Coroutines are cut at their [await] points: each piece between two
    suspension points is a function on the client state, and what the
    outside world does at a suspension point (the socket accepts or refuses
    a send, a timeout fires, a message arrives) is an explicit argument.
    What the event handlers of the program do when they are awaited is a
    parameter. *)

From stdpp Require Import base strings gmap list pretty.
From Stdlib Require Import ZArith.

Set Warnings "-register-all".
Open Scope Z_scope.

(** ** JSON values, as [json.loads] returns them *)

(** Numbers are integers here; floating-point payloads are outside the
    embedding.  [JNull] is Python's [None]. *)
Inductive json : Type :=
  | JNull
  | JBool (b : bool)
  | JNum (n : Z)
  | JStr (s : string)
  | JArr (l : list json)
  | JObj (o : list (string * json)).

Abbreviation dict := (list (string * json)).

(** [d.get(k)] on a decoded object: [None] when the key is absent. *)
Fixpoint dict_lookup (d : dict) (k : string) : option json :=
  match d with
  | [] => None
  | (k', v) :: d' => if bool_decide (k' = k) then Some v else dict_lookup d' k
  end.

(** [d.get(k, dflt)] *)
Definition dict_get (d : dict) (k : string) (dflt : json) : json :=
  default dflt (dict_lookup d k).

(** Python truthiness of a decoded value. *)
Definition truthy (v : json) : bool :=
  match v with
  | JNull => false
  | JBool b => b
  | JNum n => negb (n =? 0)
  | JStr s => negb (bool_decide (s = ""))
  | JArr l => match l with [] => false | _ => true end
  | JObj o => match o with [] => false | _ => true end
  end.

(** [v == "literal"]: a string equals only a string. *)
Definition str_eq (v : json) (lit : string) : bool :=
  match v with
  | JStr s => bool_decide (s = lit)
  | _ => false
  end.

(** What a value is when used as a key of a [Dict[str, _]]: lists and
    objects are unhashable ([TypeError]); a string is looked up; any other
    hashable value is simply absent from a table whose keys are strings. *)
Inductive dict_key : Type :=
  | Unhashable
  | NoSuchKey
  | Key (s : string).

Definition as_key (v : json) : dict_key :=
  match v with
  | JArr _ | JObj _ => Unhashable
  | JStr s => Key s
  | _ => NoSuchKey
  end.

(** ** exceptions.py *)

Inductive ExnKind : Type :=
  (* the classes of exceptions.py *)
  | LLMRouterError
  | NetworkError
  | TimeoutError
  | RateLimitError
  | AuthenticationError
  | ValidationError
  | ModelNotFoundError
  | InferenceError
  | ConfigurationError
  | StreamingError
  | GRPCError
  | WebSocketError
  (* raised by the interpreter and the libraries underneath *)
  | CancelledError
  | AsyncioTimeoutError
  | InvalidStateError
  | TypeError
  | AttributeError
  | ValueError
  | JSONDecodeError
  | PydanticValidationError
  | ConnectionClosed
  | HttpxTimeoutException
  | HttpxNetworkError
  | OtherException.

Global Instance ExnKind_eq_dec : EqDecision ExnKind.
Proof. solve_decision. Defined.

(** An exception object: [LLMRouterError.__init__] stores [message],
    [status_code], [response_data or {}] and [original_error].  A message
    is a literal, a decoded value handed over as it came, or an f-string
    that interpolates another exception. *)
Inductive PyExn : Type :=
  | Exn (kind : ExnKind) (message : Message) (status_code : option Z)
        (response_data : json) (original_error : option PyExn)
with Message : Type :=
  | Text (s : string)
  | Value (v : json)
  | Fmt (prefix : string) (e : PyExn).

Definition exn_kind (e : PyExn) : ExnKind :=
  match e with Exn k _ _ _ _ => k end.
Definition exn_message (e : PyExn) : Message :=
  match e with Exn _ m _ _ _ => m end.
Definition exn_status_code (e : PyExn) : option Z :=
  match e with Exn _ _ s _ _ => s end.
Definition exn_response_data (e : PyExn) : json :=
  match e with Exn _ _ _ d _ => d end.
Definition exn_original_error (e : PyExn) : option PyExn :=
  match e with Exn _ _ _ _ o => o end.

(** [cls(message, status_code=…, response_data=…, original_error=…)] *)
Definition new_error (cls : ExnKind) (message : Message)
    (status_code : option Z) (response_data : option json)
    (original_error : option PyExn) : PyExn :=
  let data :=
    match response_data with
    | Some d => if truthy d then d else JObj []
    | None => JObj []
    end in
  Exn cls message status_code data original_error.

(** An exception raised by a library, carrying only its text. *)
Definition lib_error (cls : ExnKind) (text : string) : PyExn :=
  Exn cls (Text text) None (JObj []) None.

(** The classes of exceptions.py. *)
Definition is_package (cls : ExnKind) : bool :=
  match cls with
  | LLMRouterError | NetworkError | TimeoutError | RateLimitError
  | AuthenticationError | ValidationError | ModelNotFoundError
  | InferenceError | ConfigurationError | StreamingError | GRPCError
  | WebSocketError => true
  | _ => false
  end.

(** [str(e)] raises.  [LLMRouterError.__str__] joins [self.message] with
    the status and data parts, and [str.join] raises [TypeError] on an item
    that is not a string: so it does for an exception of the package
    whose message is a decoded value other than a JSON string.  A literal
    and a formatted message are strings, and the exceptions of the
    interpreter and the libraries print. *)
Definition str_raises (e : PyExn) : bool :=
  is_package (exn_kind e) &&
  match exn_message e with
  | Value (JStr _) => false
  | Value _ => true
  | Text _ | Fmt _ _ => false
  end.

Definition join_error : PyExn :=
  lib_error TypeError "sequence item 0: expected str instance".

(** [raise cls(f"{prefix}{e}", original_error=e)]: the exception that
    leaves the statement.  The f-string calls [str(e)] first. *)
Definition wrapping (cls : ExnKind) (prefix : string) (e : PyExn) : PyExn :=
  if str_raises e then join_error
  else new_error cls (Fmt prefix e) None None (Some e).

(** [isinstance(e, Exception)]: cancellation derives from [BaseException]
    only, so an [except Exception] clause lets it through. *)
Definition is_Exception (e : PyExn) : bool :=
  negb (bool_decide (exn_kind e = CancelledError)).

(** [STATUS_CODE_TO_EXCEPTION.get(status_code, LLMRouterError)] *)
Definition STATUS_CODE_TO_EXCEPTION (status_code : Z) : ExnKind :=
  if status_code =? 400 then ValidationError
  else if status_code =? 401 then AuthenticationError
  else if status_code =? 403 then AuthenticationError
  else if status_code =? 404 then ModelNotFoundError
  else if status_code =? 408 then TimeoutError
  else if status_code =? 429 then RateLimitError
  else if status_code =? 500 then InferenceError
  else if status_code =? 502 then NetworkError
  else if status_code =? 503 then NetworkError
  else if status_code =? 504 then TimeoutError
  else LLMRouterError.

Definition create_exception_from_response (status_code : Z)
    (message : Message) (response_data : option json) : PyExn :=
  new_error (STATUS_CODE_TO_EXCEPTION status_code) message
            (Some status_code) response_data None.

(** What a call produces: a value or a raised exception. *)
Inductive Outcome (A : Type) : Type :=
  | Return (a : A)
  | Raise (e : PyExn).
Arguments Return {A} a.
Arguments Raise {A} e.

(** ** The libraries underneath

    [json.loads] and pydantic's field validation are not code of this
    package: they are taken as parameters.  A decoder returns [None] where
    [json.loads] raises [JSONDecodeError].  Of pydantic only two facts are
    used: a JSON string is a valid [str] and a JSON boolean a valid
    [bool]. *)

Class JsonDecoder := json_loads : string -> option json.

Class Pydantic := {
  validate_str : json -> option string;
  validate_bool : json -> option bool;
  validate_optional_str : json -> option (option string);
  validate_optional_metrics : json -> option (option json);
  validate_optional_dict : json -> option (option json);
  validate_str_JStr : forall s, validate_str (JStr s) = Some s;
  validate_bool_JBool : forall b, validate_bool (JBool b) = Some b
}.

(** ** models.py *)

(** A declared field: validated when the keyword is given, its default
    otherwise. *)
Definition field {A} (kwargs : dict) (name : string)
    (validate : json -> option A) (dflt : A) : option A :=
  match dict_lookup kwargs name with
  | Some v => validate v
  | None => Some dflt
  end.

(** A field without default: the keyword must be there. *)
Definition required {A} (kwargs : dict) (name : string)
    (validate : json -> option A) : option A :=
  dict_lookup kwargs name ≫= validate.

(** [ConfigDict(extra="allow")]: undeclared keywords are kept. *)
Definition extras (declared : list string) (kwargs : dict) : dict :=
  filter (fun kv => kv.1 ∉ declared) kwargs.

Definition validation_error : PyExn :=
  lib_error PydanticValidationError "validation error".

Module InferenceResponse.
Record t : Type := mk {
  text : string;
  model_id : option string;
  metrics : option json;
  success : bool;
  error : option string;
  metadata : option json;
  extra : dict
}.

(** The constructor [InferenceResponse], called with keyword arguments. *)
Definition init `{Pydantic} (kwargs : dict) : Outcome t :=
  let built :=
    text ← required kwargs "text" validate_str;
    model_id ← field kwargs "model_id" validate_optional_str None;
    metrics ← field kwargs "metrics" validate_optional_metrics None;
    success ← field kwargs "success" validate_bool true;
    error ← field kwargs "error" validate_optional_str None;
    metadata ← field kwargs "metadata" validate_optional_dict (Some (JObj []));
    Some (mk text model_id metrics success error metadata
             (extras ["text"; "model_id"; "metrics"; "success"; "error";
                      "metadata"] kwargs)) in
  match built with
  | Some r => Return r
  | None => Raise validation_error
  end.
End InferenceResponse.

Module StreamingResponse.
Record t : Type := mk {
  token : string;
  is_complete : bool;
  model_id : option string;
  metrics : option json;
  error : option string;
  extra : dict
}.

(** The constructor [StreamingResponse], called with keyword arguments. *)
Definition init `{Pydantic} (kwargs : dict) : Outcome t :=
  let built :=
    token ← required kwargs "token" validate_str;
    is_complete ← field kwargs "is_complete" validate_bool false;
    model_id ← field kwargs "model_id" validate_optional_str None;
    metrics ← field kwargs "metrics" validate_optional_metrics None;
    error ← field kwargs "error" validate_optional_str None;
    Some (mk token is_complete model_id metrics error
             (extras ["token"; "is_complete"; "model_id"; "metrics";
                      "error"] kwargs)) in
  match built with
  | Some r => Return r
  | None => Raise validation_error
  end.
End StreamingResponse.

(** Unpacking a value into keyword arguments: it must be a mapping. *)
Definition splat {A} (init : dict -> Outcome A) (value : json) : Outcome A :=
  match value with
  | JObj kwargs => init kwargs
  | _ => Raise (lib_error TypeError "argument after ** must be a mapping")
  end.

(** ** asyncio: futures and queues *)

Inductive FutState : Type :=
  | Pending
  | Cancelled
  | Finished (result : json)
  | Failed (exception : PyExn).

(** An [asyncio.Future].  The client hangs the stream queue on the future
    as an extra attribute: [None] here means the attribute is not set.  The
    queue is an unbounded [asyncio.Queue], oldest item first; the
    end-of-stream sentinel [None] is [JNull]. *)
Record Future : Type := {
  _state : FutState;
  _stream_queue : option (list json)
}.

Definition new_future : Future :=
  {| _state := Pending; _stream_queue := None |}.

Definition cancelled (f : Future) : bool :=
  match _state f with Cancelled => true | _ => false end.

(** [future.cancel()]: only a pending future changes. *)
Definition cancel (f : Future) : Future :=
  match _state f with
  | Pending => {| _state := Cancelled; _stream_queue := _stream_queue f |}
  | _ => f
  end.

Definition invalid_state : PyExn := lib_error InvalidStateError "invalid state".

Definition set_result (f : Future) (v : json) : Outcome Future :=
  match _state f with
  | Pending => Return {| _state := Finished v; _stream_queue := _stream_queue f |}
  | _ => Raise invalid_state
  end.

Definition set_exception (f : Future) (e : PyExn) : Outcome Future :=
  match _state f with
  | Pending => Return {| _state := Failed e; _stream_queue := _stream_queue f |}
  | _ => Raise invalid_state
  end.

(** [queue.put(item)] on the queue attribute. *)
Definition queue_put (item : json) (f : Future) : Future :=
  {| _state := _state f;
     _stream_queue := Some (default [] (_stream_queue f) ++ [item]) |}.

Inductive Level : Type := INFO | WARNING | ERROR.

(** ** websocket_client.py *)

Module WebSocketClient.

(** A registered handler is a callable object of the program that uses
    the client; the handler table holds a reference to it. *)
Definition Handler : Type := nat.

(** The client object.  Futures are objects shared between the table and
    the coroutine that awaits them, so they live in a store, [futures],
    and the table holds references into it: removing a table entry leaves
    the future (and its queue) in place for whoever still holds it.
    [_websocket] is [true] when the attribute is not [None]; likewise
    [_background_task]. *)
Record t : Type := mk {
  _websocket : bool;
  _message_id : nat;
  _pending_requests : gmap string nat;
  _event_handlers : gmap string Handler;
  _background_task : bool;
  futures : list Future;
  log : list (Level * string)
}.

(** What awaiting a call of a handler does is not code of the package:
    [call handler v self] is the client as the handler leaves it (a handler
    holds the client and may dispatch, register or close on it) and the
    exception it raises, if any. *)
Class Callables := call : Handler -> json -> t -> t * option PyExn.

(** [WebSocketClient(config)] *)
Definition init : t :=
  mk false 0%nat ∅ ∅ false [] [(INFO, "Initialized WebSocket client")].

Definition with_pending (table : gmap string nat) (self : t) : t :=
  mk (_websocket self) (_message_id self) table (_event_handlers self)
     (_background_task self) (futures self) (log self).

Definition with_futures (store : list Future) (self : t) : t :=
  mk (_websocket self) (_message_id self) (_pending_requests self)
     (_event_handlers self) (_background_task self) store (log self).

Definition logger (level : Level) (event : string) (self : t) : t :=
  mk (_websocket self) (_message_id self) (_pending_requests self)
     (_event_handlers self) (_background_task self) (futures self)
     (log self ++ [(level, event)]).

(** [self._pending_requests.pop(key, None)], the removal part. *)
Definition pop (key : string) (self : t) : t :=
  with_pending (delete key (_pending_requests self)) self.

(** Writing a future object back to the store. *)
Definition store (ref : nat) (f : Future) (self : t) : t :=
  with_futures (<[ref := f]> (futures self)) self.

(** The effect of [future.set_result] / [future.set_exception]. *)
Definition resolve (ref : nat) (o : Outcome Future) (self : t)
    : t * option PyExn :=
  match o with
  | Return f => (store ref f self, None)
  | Raise e => (self, Some e)
  end.

Definition unhashable : PyExn := lib_error TypeError "unhashable type".

(** The logger is structlog's, whose methods take the log line as their
    first parameter, [event]: a call that passes a line and the keyword
    [event=] as well raises [TypeError] and logs nothing. *)
Definition event_clash : PyExn :=
  lib_error TypeError "got multiple values for argument 'event'".

(** [connect]: [attempt] is what [websockets.connect] does, [None] for a
    connection and [Some e] when it raises [e]. *)
Definition connect (attempt : option PyExn) (self : t) : t * option PyExn :=
  if _websocket self then (self, None)
  else
    match attempt with
    | None =>
      (logger INFO "WebSocket connected"
         (mk true (_message_id self) (_pending_requests self)
             (_event_handlers self) true (futures self) (log self)),
       None)
    | Some e =>
      if is_Exception e then
        (self, Some (wrapping WebSocketError "Failed to connect to WebSocket: "
                       e))
      else (self, Some e)
    end.

(** The loop [for future in self._pending_requests.values():
    future.cancel()]. *)
Definition cancel_all (refs : list nat) (store : list Future) : list Future :=
  foldr (fun ref fs => alter cancel ref fs) store refs.

(** [close] *)
Definition close (self : t) : t :=
  logger INFO "WebSocket closed"
    (mk false (_message_id self) ∅ (_event_handlers self) false
        (cancel_all (map_to_list (_pending_requests self)).*2 (futures self))
        (log self)).

(** [_handle_stream_message] *)
Definition _handle_stream_message (data : dict) (self : t)
    : t * option PyExn :=
  let stream_id := dict_get data "stream_id" JNull in
  match as_key stream_id with
  | Unhashable => (self, Some unhashable)
  | NoSuchKey => (self, None)
  | Key k =>
    match _pending_requests self !! k with
    | None => (self, None)
    | Some ref =>
      match futures self !! ref with
      | None => (self, None)
      | Some future =>
        if cancelled future then (self, None)
        else
          let future := queue_put (dict_get data "data" (JObj [])) future in
          let future :=
            if truthy (dict_get data "complete" (JBool false))
            then queue_put JNull future
            else future in
          (store ref future self, None)
      end
    end
  end.

(** [_handle_message].  The second component is the exception that
    leaves the method, if any.  A reference that points outside the store
    does not occur (see [table_ok]); the function then leaves the state as
    it is.  In the event branch the [except] clause logs with the keyword
    [event=], so what leaves it is the [TypeError] of that call, or the one
    of [str(e)] before it. *)
Definition _handle_message `{Callables} (data : json) (self : t)
    : t * option PyExn :=
  match data with
  | JObj data =>
    let message_type := dict_get data "type" JNull in
    let message_id := dict_get data "id" JNull in
    if str_eq message_type "response" && truthy message_id then
      match as_key message_id with
      | Unhashable => (self, Some unhashable)
      | NoSuchKey => (self, None)
      | Key k =>
        let future := _pending_requests self !! k in
        let self := pop k self in
        match future with
        | None => (self, None)
        | Some ref =>
          match futures self !! ref with
          | None => (self, None)
          | Some future =>
            if cancelled future then (self, None)
            else if truthy (dict_get data "error" JNull) then
              resolve ref
                (set_exception future
                   (new_error WebSocketError
                      (Value (dict_get data "error" JNull)) None None None))
                self
            else
              resolve ref (set_result future (dict_get data "data" (JObj [])))
                self
          end
        end
      end
    else if str_eq message_type "stream" then
      _handle_stream_message data self
    else if str_eq message_type "event" then
      let event_name := dict_get data "event" JNull in
      match as_key event_name with
      | Unhashable => (self, Some unhashable)
      | NoSuchKey => (self, None)
      | Key k =>
        match _event_handlers self !! k with
        | None => (self, None)
        | Some handler =>
          let '(self, raised) :=
            call handler (dict_get data "data" (JObj [])) self in
          match raised with
          | None => (self, None)
          | Some e =>
            if is_Exception e
            then (self, Some (if str_raises e then join_error else event_clash))
            else (self, Some e)
          end
        end
      end
    else (logger WARNING "Unknown message type" self, None)
  | _ => (self, Some (lib_error AttributeError "object has no attribute 'get'"))
  end.

(** The loop body of [_message_handler] once the message is decoded:
    handle and catch.  An exception that is not an [Exception] gets out,
    and so does the [TypeError] of [str(e)] in the [except] clause. *)
Definition on_data `{Callables} (data : json) (self : t) : t * option PyExn :=
  let '(self, raised) := _handle_message data self in
  match raised with
  | None => (self, None)
  | Some e =>
    if is_Exception e then
      if str_raises e then (self, Some join_error)
      else (logger ERROR "Error handling WebSocket message" self, None)
    else (self, Some e)
  end.

(** One turn of the loop body of [_message_handler]. *)
Definition on_message `{JsonDecoder} `{Callables} (message : string)
    (self : t) : t * option PyExn :=
  match json_loads message with
  | None => (logger WARNING "Failed to parse WebSocket message" self, None)
  | Some data => on_data data self
  end.

(** How the iteration over the socket ends: the peer closes cleanly and
    the iteration stops, or the iteration raises. *)
Inductive SocketEnd : Type :=
  | ClosedOK
  | ClosedError (e : PyExn).

(** The two [except] clauses around the loop of [_message_handler]; the
    second one logs [str(e)]. *)
Definition _message_handler_except (e : PyExn) (self : t) : t :=
  if bool_decide (exn_kind e = ConnectionClosed)
  then logger INFO "WebSocket connection closed" self
  else if is_Exception e then
    if str_raises e then self
    else logger ERROR "WebSocket message handler error" self
  else self.

(** [_message_handler], run over the messages the socket delivers before
    it ends. *)
Fixpoint _message_handler `{JsonDecoder} `{Callables} (incoming : list string)
    (ending : SocketEnd) (self : t) : t :=
  match incoming with
  | [] =>
    match ending with
    | ClosedOK => self
    | ClosedError e => _message_handler_except e self
    end
  | message :: rest =>
    let '(self, escaped) := on_message message self in
    match escaped with
    | None => _message_handler rest ending self
    | Some e => _message_handler_except e self
    end
  end.

(** [on_event]: the handler is stored, and then the log call, which
    passes the keyword [event=], raises. *)
Definition on_event (event_name : string) (handler : Handler) (self : t)
    : t * option PyExn :=
  (mk (_websocket self) (_message_id self) (_pending_requests self)
      (<[event_name := handler]> (_event_handlers self))
      (_background_task self) (futures self) (log self),
   Some event_clash).

(** *** The dispatchers *)

(** What a dispatcher holds after registering: the identifier, the
    reference to its future, and the envelope to send. *)
Record Dispatch : Type := {
  message_id : string;
  future : nat;
  message : json
}.

(** Allocation and registration, common to both dispatchers:
    [id = str(self._message_id); self._message_id += 1; ...;
    self._pending_requests[id] = future]. *)
Definition register (envelope_type request_type : string) (data : json)
    (fresh : Future) (self : t) : t * Dispatch :=
  let message_id := pretty (_message_id self) in
  let message :=
    JObj [("type", JStr envelope_type);
          ("id", JStr message_id);
          ("request_type", JStr request_type);
          ("data", data)] in
  let ref := length (futures self) in
  (mk (_websocket self) (S (_message_id self))
      (<[message_id := ref]> (_pending_requests self))
      (_event_handlers self) (_background_task self)
      (futures self ++ [fresh]) (log self),
   {| message_id := message_id; future := ref; message := message |}).

Definition cancelled_error : PyExn := lib_error CancelledError "".
Definition asyncio_timeout : PyExn := lib_error AsyncioTimeoutError "".

(** Why a coroutine suspended in [asyncio.wait_for] resumes although
    what it awaits is not done. *)
Inductive Wake : Type :=
  | TimeoutElapsed
  | CallerCancelled.

(** [asyncio.wait_for(future, timeout)] at the moment the awaiting
    coroutine resumes: a done future gives its result; a pending one is
    cancelled, by the timeout or with the caller. *)
Definition wait_for (ref : nat) (wake : Wake) (self : t) : t * Outcome json :=
  match futures self !! ref with
  | None => (self, Raise invalid_state)
  | Some f =>
    match _state f with
    | Finished v => (self, Return v)
    | Failed e => (self, Raise e)
    | Cancelled => (self, Raise cancelled_error)
    | Pending =>
      (store ref (cancel f) self,
       Raise match wake with
             | TimeoutElapsed => asyncio_timeout
             | CallerCancelled => cancelled_error
             end)
    end
  end.

(** The two [except] clauses of [_send_request]. *)
Definition _send_request_except (message_id request_type : string)
    (e : PyExn) (self : t) : t * PyExn :=
  if bool_decide (exn_kind e = AsyncioTimeoutError) then
    (pop message_id self,
     new_error TimeoutError
       (Text ("WebSocket request timeout: " +:+ request_type))
       None None None)
  else if is_Exception e then
    (pop message_id self, wrapping WebSocketError "WebSocket request failed: " e)
  else (self, e).

(** [_send_request].  [connecting] and [sending] are what the socket
    library does at [connect] and [send] ([Some e]: it raises [e]);
    [meanwhile] is what the rest of the program (the receive loop, other
    callers) does to the client while this coroutine is suspended on its
    future; [wake] is why it resumes if the future is still pending. *)
Definition _send_request (connecting : option PyExn) (request_type : string)
    (data : json) (sending : option PyExn) (meanwhile : t -> t)
    (wake : Wake) (self : t) : t * Outcome json :=
  let '(self, failed) :=
    if _websocket self then (self, None) else connect connecting self in
  match failed with
  | Some e => (self, Raise e)
  | None =>
    let '(self, d) := register "request" request_type data new_future self in
    let '(self, outcome) :=
      match sending with
      | Some e => (self, Raise e)
      | None => wait_for (future d) wake (meanwhile self)
      end in
    match outcome with
    | Return response => (self, Return response)
    | Raise e =>
      let '(self, e) :=
        _send_request_except (message_id d) request_type e self in
      (self, Raise e)
    end
  end.

(** [inference]: [data] is [request.model_dump()]. *)
Definition inference `{Pydantic} (connecting : option PyExn) (data : json)
    (sending : option PyExn) (meanwhile : t -> t) (wake : Wake) (self : t)
    : t * Outcome InferenceResponse.t :=
  let self := logger INFO "WebSocket inference" self in
  let '(self, response_data) :=
    _send_request connecting "inference" data sending meanwhile wake self in
  match response_data with
  | Return response_data => (self, splat InferenceResponse.init response_data)
  | Raise e => (self, Raise e)
  end.

(** [d[k] = v] *)
Fixpoint dict_set (d : dict) (k : string) (v : json) : dict :=
  match d with
  | [] => [(k, v)]
  | (k', v') :: d' =>
    if bool_decide (k' = k) then (k, v) :: d' else (k', v') :: dict_set d' k v
  end.

(** [if not data.get("options"): data["options"] = {}] followed by
    [data["options"]["stream"] = True].  [model_dump] makes the options
    an object or [None]. *)
Definition enable_stream (data : dict) : dict :=
  let options :=
    match dict_get data "options" JNull with
    | JObj options => options
    | _ => []
    end in
  dict_set data "options" (JObj (dict_set options "stream" (JBool true))).

(** [stream_inference] is an asynchronous generator; it is cut into the
    pieces that run between two suspension points. *)

(** From the call to the allocation: the log line, and the connection
    when there is none. *)
Definition stream_open (connecting : option PyExn) (self : t)
    : t * option PyExn :=
  let self := logger INFO "WebSocket stream inference" self in
  if _websocket self then (self, None) else connect connecting self.

(** From the allocation to the [try]: allocation and registration, the
    future getting its queue at creation. *)
Definition stream_register (data : dict) (self : t) : t * Dispatch :=
  register "stream_request" "inference" (JObj (enable_stream data))
    {| _state := Pending; _stream_queue := Some [] |} self.

(** The clause [except Exception as e: raise WebSocketError(...)]. *)
Definition stream_except (e : PyExn) : PyExn :=
  if is_Exception e then wrapping WebSocketError "WebSocket streaming failed: " e
  else e.

(** The [finally] clause. *)
Definition stream_finally (d : Dispatch) (self : t) : t :=
  pop (message_id d) self.

(** [await self._websocket.send(...)] inside the [try]. *)
Definition stream_send (sending : option PyExn) (d : Dispatch) (self : t)
    : t * option PyExn :=
  match sending with
  | None => (self, None)
  | Some e => (stream_finally d self, Some (stream_except e))
  end.

(** What one pull on the generator gives. *)
Inductive Pull : Type :=
  | Yield (chunk : StreamingResponse.t)
  | StopAsyncIteration
  | Raised (e : PyExn)
  | Waiting.

(** One turn of the [while True] loop.  The generator reads the queue of
    the future it created, whatever the table holds by then.  On an
    empty queue the pull stays suspended ([Waiting]) unless the per-pull
    timeout has elapsed. *)
Definition stream_next `{Pydantic} (d : Dispatch) (timed_out : bool)
    (self : t) : t * Pull :=
  match futures self !! future d with
  | None => (self, Waiting)
  | Some f =>
    match default [] (_stream_queue f) with
    | [] =>
      if timed_out then
        (stream_finally d self,
         Raised (stream_except
                   (new_error TimeoutError (Text "WebSocket stream timeout")
                      None None None)))
      else (self, Waiting)
    | chunk_data :: rest =>
      let self :=
        store (future d) {| _state := _state f; _stream_queue := Some rest |}
          self in
      match chunk_data with
      | JNull => (stream_finally d self, StopAsyncIteration)
      | _ =>
        match splat StreamingResponse.init chunk_data with
        | Return chunk => (self, Yield chunk)
        | Raise e => (stream_finally d self, Raised (stream_except e))
        end
      end
    end
  end.

(** The caller abandons the generator at a [yield]: closing it runs the
    [finally] clause. *)
Definition stream_close (d : Dispatch) (self : t) : t :=
  stream_finally d self.

(** *** A stream and its consumer, interleaved *)

(** The receive loop handles a decoded message, or the consumer pulls. *)
Inductive Turn : Type :=
  | Recv (data : json)
  | Next (timed_out : bool).

(** The consumer's side: what it was given so far and, once the
    iteration is over, how it ended ([Some None]: normally). *)
Record Consumer : Type := {
  observed : list StreamingResponse.t;
  ended : option (option PyExn)
}.

Definition consumer_start : Consumer := {| observed := []; ended := None |}.

Definition turn `{Pydantic} `{Callables} (d : Dispatch) (tn : Turn) (sc : t * Consumer)
    : t * Consumer :=
  let '(self, c) := sc in
  match tn with
  | Recv data => ((on_data data self).1, c)
  | Next timed_out =>
    match ended c with
    | Some _ => (self, c)
    | None =>
      let '(self, p) := stream_next d timed_out self in
      match p with
      | Yield chunk =>
        (self, {| observed := observed c ++ [chunk]; ended := None |})
      | StopAsyncIteration =>
        (self, {| observed := observed c; ended := Some None |})
      | Raised e => (self, {| observed := observed c; ended := Some (Some e) |})
      | Waiting => (self, c)
      end
    end
  end.

Definition run `{Pydantic} `{Callables} (d : Dispatch) (schedule : list Turn)
    (sc : t * Consumer) : t * Consumer :=
  foldl (fun sc tn => turn d tn sc) sc schedule.

End WebSocketClient.

(** ** tenacity: the [retry] decorator

    The decorator comes from a library; it is embedded with the meaning
    its arguments have there.  The retry condition is the library's
    default, every [Exception], because the decorated function passes
    none. *)

(** [stop_after_attempt(max_attempt_number)] *)
Definition stop_after_attempt (max_attempt_number attempt_number : nat) : bool :=
  bool_decide (max_attempt_number ≤ attempt_number)%nat.

(** [wait_exponential(multiplier, min, max)], in seconds. *)
Definition wait_exponential (multiplier min max : Z) (attempt_number : nat) : Z :=
  Z.max (Z.max 0 min)
        (Z.min (multiplier * 2 ^ (Z.of_nat attempt_number - 1)) max).

(** What the caller of a decorated function can observe. *)
Record Retried (A : Type) : Type := {
  result : Outcome A;
  attempts : nat;
  sleeps : list Z
}.
Arguments result {A} _.
Arguments attempts {A} _.
Arguments sleeps {A} _.

(** The retry loop from attempt [attempt_number] on; [fn n] is what the
    [n]-th call of the decorated function does.  With [reraise=True] the
    last exception leaves as it is.  [fuel] bounds the recursion and is
    never used up when it covers the attempts left (see
    [retrying_from_fuel]). *)
Fixpoint retrying_from {A} (fuel : nat) (max_attempt_number : nat)
    (wait : nat -> Z) (fn : nat -> Outcome A) (attempt_number : nat)
    : Retried A :=
  match fn attempt_number with
  | Return a =>
    {| result := Return a; attempts := attempt_number; sleeps := [] |}
  | Raise e =>
    if negb (is_Exception e) then
      {| result := Raise e; attempts := attempt_number; sleeps := [] |}
    else if stop_after_attempt max_attempt_number attempt_number then
      {| result := Raise e; attempts := attempt_number; sleeps := [] |}
    else
      match fuel with
      | O => {| result := Raise e; attempts := attempt_number; sleeps := [] |}
      | S fuel =>
        let rest :=
          retrying_from fuel max_attempt_number wait fn (S attempt_number) in
        {| result := result rest;
           attempts := attempts rest;
           sleeps := wait attempt_number :: sleeps rest |}
      end
  end.

Definition retry {A} (max_attempt_number : nat) (wait : nat -> Z)
    (fn : nat -> Outcome A) : Retried A :=
  retrying_from max_attempt_number max_attempt_number wait fn 1%nat.

(** ** async_client.py: session and request data *)

Module AsyncLLMRouterSession.

(** The part of the client object the request data depends on.
    [_client] is [true] when the attribute is not [None]. *)
Record t : Type := {
  _client : bool;
  _session_id : option string
}.

(** [AsyncLLMRouterClient(config)] *)
Definition init : t := {| _client := false; _session_id := None |}.

(** [set_session_id] *)
Definition set_session_id (session_id : string) (self : t) : t :=
  {| _client := _client self; _session_id := Some session_id |}.

(** [clear_session] *)
Definition clear_session (self : t) : t :=
  {| _client := _client self; _session_id := None |}.

(** [if self._session_id: data["session_id"] = self._session_id] *)
Definition with_session (self : t) (data : dict) : dict :=
  match _session_id self with
  | Some session_id =>
    if bool_decide (session_id = "") then data
    else WebSocketClient.dict_set data "session_id" (JStr session_id)
  | None => data
  end.

(** The data [inference] posts: [data] is [request.model_dump()]. *)
Definition inference_data (self : t) (data : dict) : dict :=
  with_session self data.

(** The data [stream_inference] posts:
    [data["options"] = data.get("options", {})], then
    [data["options"]["stream"] = True], then the session.  The item
    assignment needs an object: on [None], a string or a number it raises
    [TypeError], and so it does on a list, whose indices are integers. *)
Definition stream_data (self : t) (data : dict) : Outcome dict :=
  let options := dict_get data "options" (JObj []) in
  let data := WebSocketClient.dict_set data "options" options in
  match options with
  | JObj options =>
    Return (with_session self
              (WebSocketClient.dict_set data "options"
                 (JObj (WebSocketClient.dict_set options "stream" (JBool true)))))
  | _ => Raise (lib_error TypeError "object does not support item assignment")
  end.

(** *** chat_completion *)







End AsyncLLMRouterSession.

(** ** async_client.py *)

Module AsyncLLMRouterClient.

(** An HTTP response as the client reads it: [response.json()] is the
    decoder applied to the body text. *)
Record Response : Type := {
  status_code : Z;
  text : string
}.

(** What the transport does with one request. *)
Inductive Transport : Type :=
  | Responds (response : Response)
  | Fails (e : PyExn).

(** [str.upper] on the letters a to z. *)
Definition upper_char (c : Ascii.ascii) : Ascii.ascii :=
  let n := Ascii.nat_of_ascii c in
  if ((97 <=? n) && (n <=? 122))%nat then Ascii.ascii_of_nat (n - 32) else c.

(** The characters outside ASCII whose upper case is made of ASCII
    letters, by their UTF-8 bytes: U+00DF (sharp s), U+0131 (dotless i),
    U+017F (long s), *)
Definition upper_special2 (b1 b2 : nat) : option string :=
  if ((b1 =? 195) && (b2 =? 159))%nat then Some "SS"
  else if ((b1 =? 196) && (b2 =? 177))%nat then Some "I"
  else if ((b1 =? 197) && (b2 =? 191))%nat then Some "S"
  else None.

(** and the ligatures U+FB00 to U+FB06. *)
Definition upper_special3 (b1 b2 b3 : nat) : option string :=
  if ((b1 =? 239) && (b2 =? 172))%nat then
    if (b3 =? 128)%nat then Some "FF"
    else if (b3 =? 129)%nat then Some "FI"
    else if (b3 =? 130)%nat then Some "FL"
    else if (b3 =? 131)%nat then Some "FFI"
    else if (b3 =? 132)%nat then Some "FFL"
    else if (b3 =? 133)%nat then Some "ST"
    else if (b3 =? 134)%nat then Some "ST"
    else None
  else None.

(** [str.upper] on the UTF-8 text of a string, as far as a comparison of
    the result with an ASCII literal can tell.  The letters a to z become
    A to Z, the ten characters above become their ASCII upper case, and
    every other character is left as it is: its upper case holds a
    character outside ASCII, as it does itself. *)
Fixpoint upper (s : string) : string :=
  match s with
  | EmptyString => EmptyString
  | String c1 rest1 =>
    match rest1 with
    | EmptyString => String (upper_char c1) EmptyString
    | String c2 rest2 =>
      match upper_special2 (Ascii.nat_of_ascii c1) (Ascii.nat_of_ascii c2) with
      | Some u => u +:+ upper rest2
      | None =>
        match rest2 with
        | EmptyString => String (upper_char c1) (upper rest1)
        | String c3 rest3 =>
          match upper_special3 (Ascii.nat_of_ascii c1) (Ascii.nat_of_ascii c2)
                  (Ascii.nat_of_ascii c3) with
          | Some u => u +:+ upper rest3
          | None => String (upper_char c1) (upper rest1)
          end
        end
      end
    end
  end.

Definition supported (method : string) : bool :=
  bool_decide (upper method ∈ ["GET"; "POST"; "PUT"; "DELETE"]).

(** The three [except] clauses at the end of [_make_request]. *)
Definition _make_request_except (e : PyExn) : PyExn :=
  match exn_kind e with
  | HttpxTimeoutException =>
    new_error TimeoutError (Fmt "Request timeout: " e) None None (Some e)
  | HttpxNetworkError =>
    new_error NetworkError (Fmt "Network error: " e) None None (Some e)
  | JSONDecodeError =>
    new_error ValidationError (Fmt "Invalid JSON response: " e) None None
      (Some e)
  | _ => e
  end.

Definition json_decode_error : PyExn := lib_error JSONDecodeError "".

(** The body of [_make_request]: one attempt.  The rate limiter only
    delays the attempt and the client is created on first use; neither
    changes what the attempt gives. *)
Definition attempt `{JsonDecoder} (method : string) (transport : Transport)
    : Outcome json :=
  if supported method then
    match transport with
    | Fails e => Raise (_make_request_except e)
    | Responds response =>
      if 400 <=? status_code response then
        let '(message, response_data) :=
          match json_loads (text response) with
          | Some (JObj error_data) =>
            (Value (dict_get error_data "error" (JStr "Request failed")),
             Some (JObj error_data))
          | Some error_data =>
            (Text ("HTTP " +:+ pretty (status_code response) +:+ ": "
                     +:+ text response),
             Some error_data)
          | None =>
            (Text ("HTTP " +:+ pretty (status_code response) +:+ ": "
                     +:+ text response),
             None)
          end in
        Raise (create_exception_from_response (status_code response)
                 message response_data)
      else
        match json_loads (text response) with
        | Some data => Return data
        | None => Raise (_make_request_except json_decode_error)
        end
    end
  else
    Raise (lib_error ValueError ("Unsupported HTTP method: " +:+ method)).

(** [_make_request], decorated with
    [retry(stop=stop_after_attempt(3),
           wait=wait_exponential(multiplier=1, min=4, max=10),
           reraise=True)].
    [world n] is what the transport does at the [n]-th attempt. *)
Definition _make_request `{JsonDecoder} (method : string)
    (world : nat -> Transport) : Retried json :=
  retry 3 (wait_exponential 1 4 10) (fun n => attempt method (world n)).

(** *** The chunked streaming loop of [stream_inference] *)




(** How the iteration seen by the caller ends. *)
Inductive StreamEnd : Type :=
  | Completed                 (* a frame marked completion *)
  | Exhausted                 (* the body ended: the connection closed *)
  | Errored (e : PyExn).      (* an exception reaches the caller *)

Record Streamed : Type := {
  yielded : list StreamingResponse.t;
  ending : StreamEnd;
  consumed : nat;
  warnings : list string
}.

(** The two [except] clauses around the streaming request. *)
Definition stream_except (e : PyExn) : PyExn :=
  match exn_kind e with
  | HttpxTimeoutException =>
    new_error TimeoutError (Fmt "Streaming timeout: " e) None None (Some e)
  | HttpxNetworkError =>
    new_error NetworkError (Fmt "Streaming network error: " e) None None
      (Some e)
  | _ => e
  end.


(** The iteration fails before a line is read. *)
Definition refused (e : PyExn) : Streamed :=
  {| yielded := []; ending := Errored e; consumed := 0; warnings := [] |}.


End AsyncLLMRouterClient.

(** ** models.py: the socket URL of a configuration *)

Module RouterConfig.

(** [s.replace(old, new)] for a non-empty [old]: every occurrence is
    replaced, from the left, the search going on behind each occurrence
    replaced.  [skip] is the number of characters still to pass over, the
    rest of an occurrence found. *)
Fixpoint replace_from (skip : nat) (old new s : string) : string :=
  match s with
  | EmptyString => EmptyString
  | String c rest =>
    match skip with
    | S skip => replace_from skip old new rest
    | O =>
      if String.prefix old s
      then new +:+ replace_from (String.length old - 1) old new rest
      else String c (replace_from 0 old new rest)
    end
  end.

Definition replace (old new s : string) : string := replace_from 0 old new s.

(** The validator [set_websocket_url]: a socket URL that is not given is
    derived from the base URL, where the values validated so far hold one
    ([base_url] is [None] when they do not). *)
Definition set_websocket_url (v base_url : option string) : option string :=
  match v, base_url with
  | None, Some base =>
    Some (replace "https://" "wss://" (replace "http://" "ws://" base))
  | _, _ => v
  end.

End RouterConfig.

(** ** Transitions of the socket client

    Every piece of the client that runs without suspension is one
    transition.  Arguments the pieces get from their coroutine (which
    identifier, which future) are left arbitrary, so the relation contains
    every interleaving of callers with the receive loop, and more.

    An event message changes the client only through what its handler
    does, and a handler acts on the client through the client's methods,
    whose pieces are transitions here: the transition of a message is
    therefore taken with handlers that do nothing. *)

(** Handlers that do nothing and raise nothing. *)
Definition inert : WebSocketClient.Callables := fun _ _ self => (self, None).

Section Transitions.
Import WebSocketClient.
Context `{Pydantic}.

Inductive step : t -> t -> Prop :=
  | step_connect attempt self :
      step self (connect attempt self).1
  | step_close self :
      step self (close self)
  | step_on_event event_name handler self :
      step self (on_event event_name handler self).1
  | step_logger level event self :
      step self (logger level event self)
  | step_handle_message data self :
      step self (@_handle_message inert data self).1
  | step_send_request_register request_type data self :
      step self (register "request" request_type data new_future self).1
  | step_wait_for ref wake self :
      step self (wait_for ref wake self).1
  | step_send_request_except message_id request_type e self :
      step self (_send_request_except message_id request_type e self).1
  | step_stream_open connecting self :
      step self (stream_open connecting self).1
  | step_stream_register data self :
      step self (stream_register data self).1
  | step_stream_send sending d self :
      step self (stream_send sending d self).1
  | step_stream_next d timed_out self :
      step self (stream_next d timed_out self).1
  | step_stream_close d self :
      step self (stream_close d self).

Definition reachable (self : t) : Prop := rtc step init self.

(** A dispatcher allocates: [_send_request] or [stream_inference]
    registers its request in [self] and obtains [d]. *)
Definition allocates (self : t) (d : Dispatch) (self' : t) : Prop :=
  (exists request_type data,
      register "request" request_type data new_future self = (self', d))
  \/ (exists data, stream_register data self = (self', d)).

(** The invariant of the table: every key is the rendering of a counter
    value already used, and every reference points into the store. *)
Definition table_ok (self : t) : Prop :=
  forall k ref, _pending_requests self !! k = Some ref ->
    (ref < length (futures self))%nat /\
    exists n : nat, (n < _message_id self)%nat /\ k = pretty n.

End Transitions.

(** ** Concrete parameters, to run the definitions *)

(** Validators that accept exactly the JSON type a field names. *)
Definition strict_str (v : json) : option string :=
  match v with JStr s => Some s | _ => None end.
Definition strict_bool (v : json) : option bool :=
  match v with JBool b => Some b | _ => None end.
Definition strict_optional_str (v : json) : option (option string) :=
  match v with JNull => Some None | JStr s => Some (Some s) | _ => None end.
Definition strict_optional_object (v : json) : option (option json) :=
  match v with JNull => Some None | JObj o => Some (Some (JObj o)) | _ => None end.

Definition strict : Pydantic :=
  {| validate_str := strict_str;
     validate_bool := strict_bool;
     validate_optional_str := strict_optional_str;
     validate_optional_metrics := strict_optional_object;
     validate_optional_dict := strict_optional_object;
     validate_str_JStr := fun s => eq_refl;
     validate_bool_JBool := fun b => eq_refl |}.

(** A decoder that knows a handful of texts and rejects the rest. *)
Definition sample_loads : JsonDecoder := fun s =>
  if bool_decide (s = "{}") then Some (JObj [])
  else if bool_decide (s = "a") then Some (JObj [("token", JStr "a")])
  else if bool_decide (s = "b") then Some (JObj [("token", JStr "b")])
  else if bool_decide (s = "z") then
    Some (JObj [("token", JStr "z"); ("is_complete", JBool true)])
  else if bool_decide (s = "5") then Some (JNum 5)
  else None.

(** A stream envelope as the receive loop routes it. *)
Definition stream_fields (stream_id : string) (payload : json)
    (complete : bool) : dict :=
  [("type", JStr "stream"); ("stream_id", JStr stream_id);
   ("data", payload); ("complete", JBool complete)].

Definition stream_chunk (stream_id : string) (payload : json) (complete : bool)
    : json :=
  JObj (stream_fields stream_id payload complete).

(** A response envelope. *)
Definition response (id : string) (payload : json) : json :=
  JObj [("type", JStr "response"); ("id", JStr id); ("data", payload)].

(** * Properties *)

Import WebSocketClient.

(** ** Rendering of identifiers *)

Lemma pretty_N_go_length (x : N) (s : string) :
  (String.length s <= String.length (pretty_N_go x s))%nat.
Proof.
  revert s. induction (N.lt_wf_0 x) as [x _ IH]; intros s.
  destruct (decide (x = 0)%N) as [->|Hx].
  - by rewrite pretty_N_go_0.
  - rewrite pretty_N_go_step by lia.
    etrans; [|apply IH; apply N.div_lt; lia]. simpl. lia.
Qed.

Lemma pretty_nat_nonempty (n : nat) : pretty n ≠ "".
Proof.
  unfold pretty, pretty_nat, pretty, pretty_N.
  case_decide; [done|].
  intros Heq.
  pose proof (pretty_N_go_length (N.of_nat n `div` 10)
                (String (pretty_N_char (N.of_nat n `mod` 10)) "")) as Hlen.
  rewrite <- pretty_N_go_step in Hlen by lia.
  rewrite Heq in Hlen. simpl in Hlen. lia.
Qed.

Lemma truthy_pretty (n : nat) : truthy (JStr (pretty n)) = true.
Proof.
  simpl. rewrite bool_decide_eq_false_2; [done|apply pretty_nat_nonempty].
Qed.

(** ** The table invariant and fresh identifiers *)

Create HintDb frame.

Section Invariant.
Context `{Pydantic}.

(** A transition that allocates nothing: the counter stays, the table
    loses entries at most, the store keeps its size. *)
Definition shrinks (self self' : t) : Prop :=
  _message_id self' = _message_id self /\
  _pending_requests self' ⊆ _pending_requests self /\
  length (futures self') = length (futures self).

(** A transition that allocates. *)
Definition grows (self self' : t) : Prop :=
  _message_id self' = S (_message_id self) /\
  _pending_requests self' =
    <[pretty (_message_id self) := length (futures self)]>
      (_pending_requests self) /\
  length (futures self') = S (length (futures self)).

Lemma shrinks_refl self : shrinks self self.
Proof. done. Qed.

Lemma length_cancel_all refs store :
  length (cancel_all refs store) = length store.
Proof.
  induction refs as [|r refs IH]; simpl; [done|].
  by rewrite length_alter.
Qed.

Lemma shrinks_pop k self : shrinks self (pop k self).
Proof. split; [|split]; simpl; [done| |done]. apply delete_subseteq. Qed.

Lemma shrinks_store ref f self : shrinks self (store ref f self).
Proof. split; [|split]; simpl; [done..|]. apply length_insert. Qed.

Lemma shrinks_trans s1 s2 s3 : shrinks s1 s2 -> shrinks s2 s3 -> shrinks s1 s3.
Proof.
  intros (? & ? & ?) (? & ? & ?). split; [|split]; [congruence| |congruence].
  by etrans.
Qed.

Lemma shrinks_logger level event self : shrinks self (logger level event self).
Proof. done. Qed.

Local Hint Resolve shrinks_refl shrinks_pop shrinks_store shrinks_logger : frame.
Local Hint Extern 5 (shrinks _ _) => (split; [|split]; simpl; done) : frame.

Lemma shrinks_handle_stream_message data self :
  shrinks self (_handle_stream_message data self).1.
Proof.
  unfold _handle_stream_message. repeat case_match; simpl; auto with frame.
Qed.

Lemma shrinks_handle_message data self :
  shrinks self (@_handle_message inert data self).1.
Proof.
  unfold _handle_message, resolve, set_exception, set_result, call, inert.
  repeat case_match; simpl; auto using shrinks_handle_stream_message with frame;
    simplify_eq;
    try (eapply shrinks_trans; [apply shrinks_pop|apply shrinks_store]).
Qed.

Lemma shrinks_close self : shrinks self (close self).
Proof.
  split; [|split]; simpl; [done| |].
  - apply map_empty_subseteq.
  - apply length_cancel_all.
Qed.

Lemma shrinks_connect attempt self : shrinks self (connect attempt self).1.
Proof. unfold connect. repeat case_match; simpl; auto with frame. Qed.

Lemma shrinks_stream_open connecting self :
  shrinks self (stream_open connecting self).1.
Proof.
  unfold stream_open. case_match; [done|].
  eapply shrinks_trans; [apply shrinks_logger|apply shrinks_connect].
Qed.

Lemma shrinks_wait_for ref wake self : shrinks self (wait_for ref wake self).1.
Proof. unfold wait_for. repeat case_match; simpl; auto with frame. Qed.

Lemma shrinks_send_request_except k request_type e self :
  shrinks self (_send_request_except k request_type e self).1.
Proof.
  unfold _send_request_except. repeat case_match; simpl; auto with frame.
Qed.

Lemma shrinks_stream_next d timed_out self :
  shrinks self (stream_next d timed_out self).1.
Proof.
  unfold stream_next, stream_finally.
  repeat case_match; simpl; auto with frame;
    try (eapply shrinks_trans; [apply shrinks_store|apply shrinks_pop]).
Qed.

Lemma grows_register envelope_type request_type data fresh self :
  grows self (register envelope_type request_type data fresh self).1.
Proof. split; [|split]; simpl; [done..|]. rewrite length_app. simpl. lia. Qed.

Lemma step_cases self self' :
  step self self' -> shrinks self self' \/ grows self self'.
Proof.
  destruct 1;
    auto using shrinks_connect, shrinks_close, shrinks_handle_message,
      shrinks_stream_open, shrinks_wait_for, shrinks_send_request_except, shrinks_stream_next,
      grows_register with frame.
  - right. apply grows_register.
  - left. unfold stream_send, stream_finally. case_match; simpl; auto with frame.
  - left. apply shrinks_pop.
Qed.

Lemma table_ok_init : table_ok init.
Proof. intros k ref Hk. simpl in Hk. by rewrite lookup_empty in Hk. Qed.

Lemma table_ok_shrinks self self' :
  shrinks self self' -> table_ok self -> table_ok self'.
Proof.
  intros (Hid & Hsub & Hlen) Hok k ref Hk.
  rewrite Hid, Hlen. apply Hok. by eapply lookup_weaken.
Qed.

Lemma table_ok_grows self self' :
  grows self self' -> table_ok self -> table_ok self'.
Proof.
  intros (Hid & Htable & Hlen) Hok k ref. rewrite Htable, Hid, Hlen.
  intros [[<- <-]|[_ Hk]]%lookup_insert_Some.
  - split; [lia|]. exists (_message_id self). split; [lia|done].
  - destruct (Hok _ _ Hk) as (? & n & ? & ->).
    split; [lia|]. exists n. split; [lia|done].
Qed.

Lemma table_ok_step self self' : step self self' -> table_ok self -> table_ok self'.
Proof.
  intros [?|?]%step_cases; eauto using table_ok_shrinks, table_ok_grows.
Qed.

Lemma table_ok_rtc self self' :
  rtc step self self' -> table_ok self -> table_ok self'.
Proof. induction 1; eauto using table_ok_step. Qed.

Lemma reachable_table_ok self : reachable self -> table_ok self.
Proof. intros Hr. eapply table_ok_rtc; [exact Hr|apply table_ok_init]. Qed.

Lemma message_id_step self self' :
  step self self' -> (_message_id self <= _message_id self')%nat.
Proof. intros [(-> & _)|(-> & _)]%step_cases; lia. Qed.

Lemma message_id_rtc self self' :
  rtc step self self' -> (_message_id self <= _message_id self')%nat.
Proof.
  induction 1 as [|? ? ? Hstep _ IH]; [done|].
  apply message_id_step in Hstep. lia.
Qed.

Lemma allocates_spec self d self' :
  allocates self d self' ->
  message_id d = pretty (_message_id self) /\
  _message_id self' = S (_message_id self) /\
  _pending_requests self' !! message_id d = Some (future d) /\
  step self self'.
Proof.
  intros [(rt & data & Hreg)|(data & Hreg)].
  - pose proof (step_send_request_register rt data self) as Hstep.
    rewrite Hreg in Hstep. unfold register in Hreg. simplify_eq/=.
    by rewrite lookup_insert_eq.
  - pose proof (step_stream_register data self) as Hstep.
    rewrite Hreg in Hstep. unfold stream_register, register in Hreg.
    simplify_eq/=. by rewrite lookup_insert_eq.
Qed.

Lemma fresh_key self :
  table_ok self -> _pending_requests self !! pretty (_message_id self) = None.
Proof.
  intros Hok. destruct (_ !! _) as [ref|] eqn:Hk; [|done].
  destruct (Hok _ _ Hk) as (_ & n & Hn & Heq).
  apply (inj pretty) in Heq. lia.
Qed.

End Invariant.

(** C8. Identifiers are never reused.  In any run of the client, a
    dispatcher (single-shot or stream) that allocates takes the current
    counter value rendered as a string and increments the counter; the
    identifier it takes has no entry in the table at that moment; and a
    dispatcher that allocates later, after any number of transitions, gets
    a different identifier.  So two requests that are live together never
    share an identifier. *)
Theorem allocated_ids_fresh_and_distinct `{Pydantic}
    (s1 s1' s2 s2' : t) (d1 d2 : Dispatch) :
  reachable s1 ->
  allocates s1 d1 s1' ->
  rtc step s1' s2 ->
  allocates s2 d2 s2' ->
  message_id d1 = pretty (_message_id s1) /\
  message_id d2 = pretty (_message_id s2) /\
  (_message_id s1 < _message_id s2)%nat /\
  _pending_requests s1 !! message_id d1 = None /\
  _pending_requests s2 !! message_id d2 = None /\
  message_id d1 ≠ message_id d2.
Proof.
  intros Hreach Ha1 Hrun Ha2.
  destruct (allocates_spec _ _ _ Ha1) as (Hid1 & Hnext1 & _ & Hstep1).
  destruct (allocates_spec _ _ _ Ha2) as (Hid2 & _ & _ & _).
  pose proof (message_id_rtc _ _ Hrun) as Hmono.
  assert (reachable s2) as Hreach2.
  { unfold reachable. etrans; [exact Hreach|]. by eapply rtc_l. }
  rewrite Hid1, Hid2. repeat split; [lia|..].
  - by apply fresh_key, reachable_table_ok.
  - by apply fresh_key, reachable_table_ok.
  - intros Heq%(inj pretty). lia.
Qed.

Lemma allocated_ids_fresh_and_distinct_witness :
  let s1 := init in
  let r1 := register "request" "inference" (JObj []) new_future s1 in
  let r2 := stream_register [] r1.1 in
  message_id r1.2 = "0" /\
  message_id r2.2 = "1" /\
  message_id r1.2 ≠ message_id r2.2.
Proof.
  intros s1 r1 r2.
  split; [reflexivity|]. split; [reflexivity|].
  refine (proj2 (proj2 (proj2 (proj2 (proj2
    (allocated_ids_fresh_and_distinct (H:=strict) s1 r1.1 r1.1 r2.1 r1.2 r2.2
       _ _ _ _)))))).
  - apply rtc_refl.
  - left. exists "inference", (JObj []). reflexivity.
  - apply rtc_refl.
  - right. exists []. reflexivity.
Defined.

(** ** The receive loop and single-shot requests *)

Section Responses.
Context `{Pydantic} `{Callables}.

Lemma key_truthy self k ref :
  table_ok self -> _pending_requests self !! k = Some ref ->
  truthy (JStr k) = true.
Proof.
  intros Hok Hk. destruct (Hok _ _ Hk) as (_ & n & _ & ->).
  apply truthy_pretty.
Qed.

Lemma futures_pop k self : futures (pop k self) = futures self.
Proof. done. Qed.

(** The response branch of [_handle_message], entry present. *)
Lemma handle_response (data : dict) k ref f self :
  truthy (JStr k) = true ->
  str_eq (dict_get data "type" JNull) "response" = true ->
  dict_get data "id" JNull = JStr k ->
  _pending_requests self !! k = Some ref ->
  futures self !! ref = Some f ->
  _handle_message (JObj data) self =
    if cancelled f then (pop k self, None)
    else if truthy (dict_get data "error" JNull) then
      resolve ref
        (set_exception f
           (new_error WebSocketError (Value (dict_get data "error" JNull))
              None None None))
        (pop k self)
    else resolve ref (set_result f (dict_get data "data" (JObj []))) (pop k self).
Proof.
  intros Htruthy Htype Hid Hk Hf. unfold _handle_message.
  rewrite Htype, Hid, Htruthy. simpl.
  rewrite Hk, Hf. done.
Qed.

(** The response branch of [_handle_message], no entry: the reply is
    dropped and the client is as before. *)
Lemma handle_response_unknown (data : dict) k self :
  str_eq (dict_get data "type" JNull) "response" = true ->
  dict_get data "id" JNull = JStr k ->
  truthy (JStr k) = true ->
  _pending_requests self !! k = None ->
  _handle_message (JObj data) self = (self, None).
Proof.
  intros Htype Hid Htruthy Hk. unfold _handle_message.
  rewrite Htype, Hid, Htruthy. simpl.
  rewrite Hk. unfold pop, with_pending. rewrite delete_id by done.
  by destruct self.
Qed.

Lemma register_table envelope_type request_type data fresh self :
  let r := register envelope_type request_type data fresh self in
  message_id r.2 = pretty (_message_id self) /\
  future r.2 = length (futures self) /\
  _pending_requests r.1 !! message_id r.2 = Some (future r.2) /\
  futures r.1 !! future r.2 = Some fresh.
Proof.
  simpl. rewrite lookup_insert_eq. repeat split.
  by rewrite lookup_app_r, Nat.sub_diag.
Qed.

End Responses.

Section CancelledReply.
Context `{Pydantic} `{Callables}.

(** C10. A response envelope whose identifier is in the table but whose
    future is already cancelled: the handler removes the entry and does
    nothing else.  No exception leaves the handler or the loop body, the
    store of futures is untouched (the future stays cancelled, neither
    result nor exception is set), nothing is logged, and every other
    table entry is as before. *)
Theorem cancelled_reply_only_removes_entry
    (self : t) (data : dict) (k : string) (ref : nat) (f : Future) :
  reachable self ->
  str_eq (dict_get data "type" JNull) "response" = true ->
  dict_get data "id" JNull = JStr k ->
  _pending_requests self !! k = Some ref ->
  futures self !! ref = Some f ->
  cancelled f = true ->
  let self' :=
    mk (_websocket self) (_message_id self) (delete k (_pending_requests self))
       (_event_handlers self) (_background_task self) (futures self)
       (log self) in
  _handle_message (JObj data) self = (self', None) /\
  on_data (JObj data) self = (self', None) /\
  _pending_requests self' !! k = None /\
  futures self' !! ref = Some f /\
  (forall k', k' ≠ k ->
     _pending_requests self' !! k' = _pending_requests self !! k').
Proof.
  intros Hreach Htype Hid Hk Hf Hc self'.
  assert (_handle_message (JObj data) self = (self', None)) as Hh.
  { rewrite (handle_response data k ref f self
               (key_truthy _ _ _ (reachable_table_ok _ Hreach) Hk)
               Htype Hid Hk Hf).
    by rewrite Hc. }
  split; [done|]. split; [by unfold on_data; rewrite Hh|].
  split; [apply lookup_delete_eq|]. split; [done|].
  intros k' Hne. by apply lookup_delete_ne.
Qed.

End CancelledReply.

Lemma cancelled_reply_only_removes_entry_witness :
  let H := strict in
  let C := inert in
  let r := register "request" "inference" (JObj []) new_future init in
  let self := (wait_for (future r.2) CallerCancelled r.1).1 in
  futures self !! 0%nat = Some {| _state := Cancelled; _stream_queue := None |} /\
  (_handle_message (response "0" (JObj [("text", JStr "late")])) self).2 = None /\
  _pending_requests
    (_handle_message (response "0" (JObj [("text", JStr "late")])) self).1
    !! "0" = None /\
  futures
    (_handle_message (response "0" (JObj [("text", JStr "late")])) self).1
    = futures self.
Proof.
  intros H C r self.
  assert (reachable self) as Hreach.
  { eapply rtc_l; [apply (step_send_request_register "inference" (JObj []))|].
    eapply rtc_l; [apply (step_wait_for 0%nat CallerCancelled)|].
    apply rtc_refl. }
  pose proof (cancelled_reply_only_removes_entry self
    [("type", JStr "response"); ("id", JStr "0");
     ("data", JObj [("text", JStr "late")])]
    "0" 0%nat {| _state := Cancelled; _stream_queue := None |}
    Hreach eq_refl eq_refl eq_refl eq_refl eq_refl) as (Hh & _ & Hk & _).
  split; [reflexivity|].
  unfold response. rewrite Hh. split; [reflexivity|]. split; [exact Hk|].
  reflexivity.
Defined.

Section Dispatching.
Context `{Pydantic} `{Callables}.

(** The client a dispatcher works on once the socket is there. *)
Definition connected (self : t) : t :=
  if _websocket self then self else (connect None self).1.

Lemma connected_frame self :
  _message_id (connected self) = _message_id self /\
  _pending_requests (connected self) = _pending_requests self /\
  futures (connected self) = futures self.
Proof. unfold connected, connect. by repeat case_match. Qed.

Lemma send_request_unfold connecting request_type data sending meanwhile wake self :
  _websocket self = true \/ connecting = None ->
  _send_request connecting request_type data sending meanwhile wake self =
    let r := register "request" request_type data new_future (connected self) in
    let w :=
      match sending with
      | Some e => (r.1, Raise e)
      | None => wait_for (future r.2) wake (meanwhile r.1)
      end in
    match w.2 with
    | Return response => (w.1, Return response)
    | Raise e =>
      let x := _send_request_except (message_id r.2) request_type e w.1 in
      (x.1, Raise x.2)
    end.
Proof.
  intros Hconn. unfold _send_request, connected.
  destruct (_websocket self) eqn:Hws.
  - simpl. destruct sending; simpl.
    + by destruct (_send_request_except _ _ _ _).
    + destruct (wait_for _ _ _) as [? []]; simpl; [done|].
      by destruct (_send_request_except _ _ _ _).
  - destruct Hconn as [?| ->]; [done|]. unfold connect. rewrite Hws. simpl.
    destruct sending; simpl.
    + by destruct (_send_request_except _ _ _ _).
    + destruct (wait_for _ _ _) as [? []]; simpl; [done|].
      by destruct (_send_request_except _ _ _ _).
Qed.

(** A reply that answers the request just registered. *)
Lemma reply_resolves request_type data payload self :
  let r := register "request" request_type data new_future self in
  on_data (response (message_id r.2) payload) r.1 =
    (store (future r.2) {| _state := Finished payload; _stream_queue := None |}
       (pop (message_id r.2) r.1), None).
Proof.
  intros r. unfold on_data, response.
  destruct (register_table "request" request_type data new_future self)
    as (Hid & Href & Hk & Hf). fold r in Hid, Href, Hk, Hf.
  rewrite (handle_response _ (message_id r.2) (future r.2) new_future);
    [done| |done|done|done|done].
  rewrite Hid. apply truthy_pretty.
Qed.

Lemma wait_for_finished ref wake self f v :
  futures self !! ref = Some f -> _state f = Finished v ->
  wait_for ref wake self = (self, Return v).
Proof. intros Hf Hs. unfold wait_for. by rewrite Hf, Hs. Qed.

Lemma wait_for_pending ref wake self f :
  futures self !! ref = Some f -> _state f = Pending ->
  wait_for ref wake self =
    (store ref {| _state := Cancelled; _stream_queue := _stream_queue f |} self,
     Raise match wake with
           | TimeoutElapsed => asyncio_timeout
           | CallerCancelled => cancelled_error
           end).
Proof. intros Hf Hs. unfold wait_for, cancel. by rewrite Hf, Hs. Qed.

Lemma send_request_replied request_type data payload wake self :
  let id := pretty (_message_id self) in
  let r :=
    _send_request None request_type data None
      (fun s => (on_data (response id payload) s).1) wake self in
  r.2 = Return payload /\
  _pending_requests r.1 !! id = None /\
  futures r.1 !! length (futures self) =
    Some {| _state := Finished payload; _stream_queue := None |}.
Proof.
  intros id r. unfold r. rewrite send_request_unfold by auto.
  destruct (connected_frame self) as (Hmid & Htable & Hfut).
  pose proof (reply_resolves request_type data payload (connected self)) as Hr.
  destruct (register_table "request" request_type data new_future
              (connected self)) as (Hid & Href & _ & Hnew).
  cbv zeta in Hr |- *.
  set (reg := register "request" request_type data new_future (connected self))
    in *.
  rewrite Hmid in Hid. fold id in Hid. rewrite Hfut in Href.
  rewrite Hid, Href in Hr. rewrite Hr, Href. cbn [fst snd].
  set (done := {| _state := Finished payload; _stream_queue := None |}).
  assert (futures (store (length (futures self)) done (pop id reg.1))
            !! length (futures self) = Some done) as Hdone.
  { unfold store. cbn [futures with_futures]. rewrite futures_pop.
    apply list_lookup_insert_eq. apply lookup_lt_Some with new_future.
    by rewrite <- Href. }
  rewrite (wait_for_finished _ _ _ done payload Hdone eq_refl). cbn [fst snd].
  split; [done|]. split; [apply lookup_delete_eq|done].
Qed.

End Dispatching.

Section SingleShot.
Context `{Pydantic} `{Callables}.

Lemma inference_response_pong :
  exists r,
    InferenceResponse.init [("text", JStr "pong"); ("success", JBool true)]
      = Return r /\
    InferenceResponse.text r = "pong" /\
    InferenceResponse.success r = true.
Proof.
  unfold InferenceResponse.init, required, field. simpl.
  rewrite validate_str_JStr, validate_bool_JBool. simpl.
  eexists. split; [reflexivity|]. done.
Qed.

(** C3. A response envelope whose identifier has an entry with a pending
    future: the handler removes the entry and resolves the future, with a
    socket error built from the envelope's [error] field when that field is
    set (truthy), with the envelope's [data] otherwise.  End to end: an
    inference request answered by a response envelope with the same
    identifier gives the caller a response built from the payload; for the
    payload [text = pong, success = true] the caller gets a response whose
    text is [pong], and no entry is left for the identifier. *)
Theorem response_resolves_single_shot (self : t) :
  reachable self ->
  (forall (data : dict) (k : string) (ref : nat) (f : Future),
      str_eq (dict_get data "type" JNull) "response" = true ->
      dict_get data "id" JNull = JStr k ->
      _pending_requests self !! k = Some ref ->
      futures self !! ref = Some f ->
      _state f = Pending ->
      let resolved :=
        if truthy (dict_get data "error" JNull)
        then Failed (new_error WebSocketError
                       (Value (dict_get data "error" JNull)) None None None)
        else Finished (dict_get data "data" (JObj [])) in
      let self' := (_handle_message (JObj data) self).1 in
      (_handle_message (JObj data) self).2 = None /\
      _pending_requests self' = delete k (_pending_requests self) /\
      futures self' =
        <[ref := {| _state := resolved; _stream_queue := _stream_queue f |}]>
          (futures self)) /\
  (forall (data : json) (wake : Wake) (payload : dict)
          (reply : InferenceResponse.t),
      InferenceResponse.init payload = Return reply ->
      let id := pretty (_message_id self) in
      let r :=
        inference None data None
          (fun s => (on_data (response id (JObj payload)) s).1) wake self in
      r.2 = Return reply /\ _pending_requests r.1 !! id = None) /\
  (forall (data : json) (wake : Wake),
      let id := pretty (_message_id self) in
      let r :=
        inference None data None
          (fun s =>
             (on_data
                (response id (JObj [("text", JStr "pong");
                                    ("success", JBool true)])) s).1)
          wake self in
      exists reply,
        r.2 = Return reply /\ InferenceResponse.text reply = "pong" /\
        _pending_requests r.1 !! id = None).
Proof.
  intros Hreach.
  assert (forall (data : json) (wake : Wake) (payload : dict)
            (reply : InferenceResponse.t),
      InferenceResponse.init payload = Return reply ->
      let id := pretty (_message_id self) in
      let r :=
        inference None data None
          (fun s => (on_data (response id (JObj payload)) s).1) wake self in
      r.2 = Return reply /\ _pending_requests r.1 !! id = None) as Hend.
  { intros data wake payload reply Hinit id r. unfold r, inference.
    destruct (send_request_replied "inference" data (JObj payload) wake
                (logger INFO "WebSocket inference" self)) as (Hres & Hk & _).
    cbn [_message_id logger] in Hres, Hk. fold id in Hres, Hk.
    destruct (_send_request _ _ _ _ _ _ _) as [s' o]. simpl in Hres, Hk.
    subst o. simpl. by rewrite Hinit. }
  split; [|split; [exact Hend|]].
  - intros data k ref f Htype Hid Hk Hf Hpending resolved self'.
    unfold self', resolved.
    rewrite (handle_response data k ref f self
               (key_truthy _ _ _ (reachable_table_ok _ Hreach) Hk)
               Htype Hid Hk Hf).
    unfold cancelled, set_exception, set_result. rewrite Hpending.
    by destruct (truthy _).
  - intros data wake id r.
    destruct inference_response_pong as (reply & Hinit & Htext & _).
    destruct (Hend data wake _ reply Hinit) as (Hres & Hk).
    exists reply. done.
Qed.

End SingleShot.

Lemma response_resolves_single_shot_witness :
  let H := strict in
  let C := inert in
  let pong := JObj [("text", JStr "pong"); ("success", JBool true)] in
  let self := (register "request" "inference" (JObj []) new_future init).1 in
  futures (_handle_message (response "0" pong) self).1 !! 0%nat =
    Some {| _state := Finished pong; _stream_queue := None |} /\
  _pending_requests (_handle_message (response "0" pong) self).1 !! "0" = None /\
  exists reply,
    (inference None (JObj []) None
       (fun s => (on_data (response "1" pong) s).1) TimeoutElapsed self).2
      = Return reply /\
    InferenceResponse.text reply = "pong".
Proof.
  intros H C pong self.
  assert (reachable self) as Hreach.
  { eapply rtc_l; [apply (step_send_request_register "inference" (JObj []))|].
    apply rtc_refl. }
  destruct (response_resolves_single_shot self Hreach) as (Hhandle & _ & Hpong).
  destruct (Hhandle [("type", JStr "response"); ("id", JStr "0"); ("data", pong)]
              "0" 0%nat new_future eq_refl eq_refl eq_refl eq_refl eq_refl)
    as (_ & Htable & Hfutures).
  destruct (Hpong (JObj []) TimeoutElapsed) as (reply & Hres & Htext & _).
  split; [|split].
  - unfold response. rewrite Hfutures. reflexivity.
  - unfold response. rewrite Htable. apply lookup_delete_eq.
  - exists reply. split; [exact Hres|exact Htext].
Defined.

Section Failures.
Context `{Pydantic} `{Callables}.

(** C6. A single-shot request that is still unanswered when its timeout
    fires: the dispatcher fails with a timeout error of the package, its
    entry is gone from the table when the call returns, and its future is
    left cancelled.  A reply for that identifier that arrives afterwards is
    dropped: handling it changes nothing and raises nothing. *)
Theorem timeout_removes_entry (self : t) (request_type : string) (data : json)
    (meanwhile : t -> t) (f : Future) :
  let registered :=
    register "request" request_type data new_future (connected self) in
  futures (meanwhile registered.1) !! future registered.2 = Some f ->
  _state f = Pending ->
  let id := pretty (_message_id self) in
  let r :=
    _send_request None request_type data None meanwhile TimeoutElapsed self in
  message_id registered.2 = id /\
  r.2 = Raise (new_error TimeoutError
                 (Text ("WebSocket request timeout: " +:+ request_type))
                 None None None) /\
  _pending_requests r.1 !! id = None /\
  futures r.1 !! future registered.2 =
    Some {| _state := Cancelled; _stream_queue := _stream_queue f |} /\
  (forall late : dict,
      str_eq (dict_get late "type" JNull) "response" = true ->
      dict_get late "id" JNull = JStr id ->
      _handle_message (JObj late) r.1 = (r.1, None) /\
      on_data (JObj late) r.1 = (r.1, None)).
Proof.
  intros registered Hf Hpending id r.
  assert (message_id registered.2 = id) as Hid.
  { simpl. by destruct (connected_frame self) as (-> & _). }
  unfold r. rewrite send_request_unfold by auto. cbv zeta.
  fold registered. rewrite (wait_for_pending _ _ _ f Hf Hpending).
  cbn [fst snd]. unfold _send_request_except.
  rewrite bool_decide_eq_true_2 by done. cbn [fst snd]. rewrite Hid.
  set (final := pop id (store (future registered.2)
                          {| _state := Cancelled;
                             _stream_queue := _stream_queue f |}
                          (meanwhile registered.1))).
  assert (_pending_requests final !! id = None) as Hgone.
  { apply lookup_delete_eq. }
  split; [done|]. split; [done|]. split; [done|]. split.
  - unfold final. rewrite futures_pop. unfold store.
    cbn [futures with_futures].
    apply list_lookup_insert_eq. by apply lookup_lt_Some with f.
  - intros late Htype Hlate.
    assert (_handle_message (JObj late) final = (final, None)) as Hh.
    { apply (handle_response_unknown late id);
        [done|done|apply truthy_pretty|done]. }
    split; [done|]. unfold on_data. by rewrite Hh.
Qed.

(** C7, as the code has it.  When sending the envelope fails, what the
    dispatcher does depends on the exception the send raised.  For an
    ordinary exception of the socket it fails with a socket error of the
    package that wraps the exception (not with a network error); for an
    asyncio timeout raised by the send, with the timeout error of the
    package, which carries no original error; for an exception of the
    package whose text cannot be formatted, with the [TypeError] of
    formatting it.  In all these cases the entry it had registered before
    sending is removed again: when the call returns the table has no entry
    for the identifier.  Only an exception that is no [Exception], a
    cancellation, passes as it is and leaves the entry in the table.  The
    other entries are as before in every case. *)
Theorem send_failure_removes_entry (self : t) (connecting : option PyExn)
    (request_type : string) (data : json) (e : PyExn) (meanwhile : t -> t)
    (wake : Wake) :
  _websocket self = true \/ connecting = None ->
  let id := pretty (_message_id self) in
  let r :=
    _send_request connecting request_type data (Some e) meanwhile wake self in
  r.2 =
    Raise (if bool_decide (exn_kind e = AsyncioTimeoutError) then
             new_error TimeoutError
               (Text ("WebSocket request timeout: " +:+ request_type))
               None None None
           else if is_Exception e then
             if str_raises e then join_error
             else new_error WebSocketError
                    (Fmt "WebSocket request failed: " e) None None (Some e)
           else e) /\
  (is_Exception e = true -> _pending_requests r.1 !! id = None) /\
  (is_Exception e = false ->
   _pending_requests r.1 !! id = Some (length (futures self))) /\
  (forall k, k ≠ id -> _pending_requests r.1 !! k = _pending_requests self !! k).
Proof.
  intros Hconn id r. unfold r.
  rewrite send_request_unfold by done. cbv zeta. cbn [fst snd].
  unfold _send_request_except, wrapping.
  destruct (connected_frame self) as (Hmid & Htable & Hfut).
  assert (is_Exception e = false -> exn_kind e ≠ AsyncioTimeoutError) as Hcancel.
  { unfold is_Exception. intros Hx Hk. rewrite Hk in Hx. done. }
  destruct (bool_decide (exn_kind e = AsyncioTimeoutError)) eqn:Htimeout;
    [|destruct (is_Exception e) eqn:Hexn];
    cbn [register message_id future fst snd pop with_pending _pending_requests];
    rewrite ?Hmid, ?Htable, ?Hfut; fold id.
  - apply bool_decide_eq_true in Htimeout.
    split; [done|]. split; [intros _; apply lookup_delete_eq|].
    split; [intros Hx; by destruct (Hcancel Hx)|].
    intros k Hne. rewrite lookup_delete_ne by done. by apply lookup_insert_ne.
  - split; [by destruct (str_raises e)|].
    split; [intros _; apply lookup_delete_eq|]. split; [done|].
    intros k Hne. rewrite lookup_delete_ne by done. by apply lookup_insert_ne.
  - split; [done|]. split; [done|].
    split; [intros _; apply lookup_insert_eq|].
    intros k Hne. by apply lookup_insert_ne.
Qed.

End Failures.

Lemma timeout_removes_entry_witness :
  let H := strict in
  let C := inert in
  let r :=
    _send_request None "inference" (JObj []) None id TimeoutElapsed init in
  exn_kind <$> (match r.2 with Raise e => Some e | Return _ => None end)
    = Some TimeoutError /\
  _pending_requests r.1 !! "0" = None /\
  _handle_message (response "0" (JObj [("text", JStr "late")])) r.1
    = (r.1, None).
Proof.
  intros H C r.
  destruct (timeout_removes_entry init "inference" (JObj []) id new_future
              eq_refl eq_refl) as (_ & Hres & Hgone & _ & Hlate).
  fold r in Hres, Hgone, Hlate.
  split; [by rewrite Hres|]. split; [exact Hgone|].
  exact (proj1 (Hlate [("type", JStr "response"); ("id", JStr "0");
                       ("data", JObj [("text", JStr "late")])]
                  eq_refl eq_refl)).
Defined.

Lemma send_failure_removes_entry_witness :
  let r :=
    _send_request None "inference" (JObj [])
      (Some (lib_error ConnectionClosed "no close frame received or sent"))
      id TimeoutElapsed init in
  exn_kind <$> (match r.2 with Raise e => Some e | Return _ => None end)
    = Some WebSocketError /\
  _pending_requests r.1 !! "0" = None.
Proof.
  intros r.
  destruct (send_failure_removes_entry init None "inference" (JObj [])
              (lib_error ConnectionClosed "no close frame received or sent")
              id TimeoutElapsed (or_intror eq_refl))
    as (Hres & Hgone & _).
  fold r in Hres, Hgone. split; [by rewrite Hres|exact (Hgone eq_refl)].
Defined.

(** C7, as stated, fails: a send refused by a closed socket makes the
    dispatcher raise a socket error of the package, which is not its
    network error. *)
Lemma send_failure_is_not_a_network_error :
  let r :=
    _send_request None "inference" (JObj [])
      (Some (lib_error ConnectionClosed "no close frame received or sent"))
      id TimeoutElapsed init in
  exists e, r.2 = Raise e /\ exn_kind e = WebSocketError /\
            exn_kind e ≠ NetworkError.
Proof. eexists. split; [reflexivity|]. split; [reflexivity|discriminate]. Qed.

(** ** Closing the connection *)

Lemma cancel_cancel f : cancel (cancel f) = cancel f.
Proof. unfold cancel. by destruct f as [[] ?]. Qed.

Lemma cancel_all_lookup refs (store : list Future) ref :
  cancel_all refs store !! ref =
    if decide (ref ∈ refs) then cancel <$> store !! ref else store !! ref.
Proof.
  induction refs as [|r refs IH]; simpl; [done|].
  destruct (decide (r = ref)) as [->|Hne].
  - rewrite list_lookup_alter, IH.
    rewrite (decide_True (P := ref = ref)) by done.
    rewrite (decide_True (P := ref ∈ ref :: refs)) by left.
    case_decide; [|done].
    destruct (store !! ref); simpl; [|done]. by rewrite cancel_cancel.
  - rewrite list_lookup_alter, IH.
    rewrite (decide_False (P := r = ref)) by done.
    destruct (decide (ref ∈ refs)).
    + rewrite (decide_True (P := ref ∈ r :: refs)); [done|by right].
    + rewrite (decide_False (P := ref ∈ r :: refs)); [done|].
      by intros [?|?]%elem_of_cons.
Qed.

(** C1, as the code has it.  After an explicit [close], the table is
    empty and every future it held has been cancelled: a future that was
    pending is in the cancelled state, with no exception set and with its
    stream queue exactly as it was (nothing is pushed for a stream), and a
    single-shot caller waiting on it resumes with a cancellation.  Futures
    the table did not hold are untouched. *)
Theorem close_cancels_pending (self : t) (k : string) (ref : nat) (f : Future)
    (wake : Wake) :
  _pending_requests self !! k = Some ref ->
  futures self !! ref = Some f ->
  _state f = Pending ->
  _pending_requests (close self) = ∅ /\
  futures (close self) !! ref =
    Some {| _state := Cancelled; _stream_queue := _stream_queue f |} /\
  wait_for ref wake (close self) = (close self, Raise cancelled_error) /\
  (forall ref' : nat,
      (forall k', _pending_requests self !! k' ≠ Some ref') ->
      futures (close self) !! ref' = futures self !! ref').
Proof.
  intros Hk Hf Hpending.
  assert (futures (close self) !! ref =
            Some {| _state := Cancelled; _stream_queue := _stream_queue f |})
    as Hcancelled.
  { simpl. rewrite cancel_all_lookup, decide_True, Hf.
    - simpl. unfold cancel. by rewrite Hpending.
    - apply list_elem_of_fmap. exists (k, ref). split; [done|].
      by apply elem_of_map_to_list. }
  split; [done|]. split; [done|]. split.
  - unfold wait_for. by rewrite Hcancelled.
  - intros ref' Hfree. simpl. rewrite cancel_all_lookup, decide_False; [done|].
    intros [[k' r'] [-> Hin%elem_of_map_to_list]]%list_elem_of_fmap.
    by apply (Hfree k').
Qed.

Lemma close_cancels_pending_witness :
  let r1 := register "request" "inference" (JObj []) new_future
              (connect None init).1 in
  let r2 := stream_register [] r1.1 in
  _pending_requests (close r2.1) = ∅ /\
  futures (close r2.1) !! 0%nat =
    Some {| _state := Cancelled; _stream_queue := None |} /\
  futures (close r2.1) !! 1%nat =
    Some {| _state := Cancelled; _stream_queue := Some [] |}.
Proof.
  intros r1 r2.
  destruct (close_cancels_pending r2.1 "0" 0%nat new_future TimeoutElapsed
              eq_refl eq_refl eq_refl) as (Hempty & Hfirst & _).
  destruct (close_cancels_pending r2.1 "1" 1%nat
              {| _state := Pending; _stream_queue := Some [] |} TimeoutElapsed
              eq_refl eq_refl eq_refl) as (_ & Hsecond & _).
  split; [exact Hempty|]. split; [exact Hfirst|exact Hsecond].
Defined.

(** C1, as stated, fails.  With one single-shot request and one stream
    outstanding, [close] leaves the first future cancelled, not failed with
    an error, and pushes nothing onto the stream's queue, so the consumer of
    the stream goes on waiting; and when the socket closes remotely the
    receive loop ends without touching the table or the futures. *)
Lemma close_sets_no_connection_closed_error :
  let H := strict in
  let C := inert in
  let L := sample_loads in
  let r1 := register "request" "inference" (JObj []) new_future
              (connect None init).1 in
  let r2 := stream_register [] r1.1 in
  let self := r2.1 in
  (futures (close self) !! future r1.2 =
     Some {| _state := Cancelled; _stream_queue := None |} /\
   futures (close self) !! future r2.2 =
     Some {| _state := Cancelled; _stream_queue := Some [] |} /\
   (stream_next r2.2 false (close self)).2 = Waiting) /\
  (forall ending,
      ending = ClosedOK \/
      ending = ClosedError (lib_error ConnectionClosed "no close frame") ->
      let remote := _message_handler [] ending self in
      _pending_requests remote = _pending_requests self /\
      _pending_requests remote !! "0" = Some 0%nat /\
      _pending_requests remote !! "1" = Some 1%nat /\
      futures remote =
        [new_future; {| _state := Pending; _stream_queue := Some [] |}]).
Proof.
  intros H C L r1 r2 self. split.
  - split; [reflexivity|]. split; reflexivity.
  - intros ending [-> | ->]; repeat split; reflexivity.
Qed.

(** ** Stream chunks *)

Section Streams.
Context `{Pydantic} `{Callables}.

Lemma str_eq_stream_not_response v :
  str_eq v "stream" = true -> str_eq v "response" = false.
Proof.
  destruct v; simpl; try done.
  intros ->%bool_decide_eq_true. done.
Qed.

(** What the handler appends to the queue for one stream envelope. *)
Definition pushed (data : dict) : list json :=
  dict_get data "data" (JObj [])
    :: (if truthy (dict_get data "complete" (JBool false)) then [JNull] else []).

(** The stream branch of [_handle_message], entry present and future not
    cancelled. *)
Lemma handle_stream (data : dict) k ref f self :
  str_eq (dict_get data "type" JNull) "stream" = true ->
  dict_get data "stream_id" JNull = JStr k ->
  _pending_requests self !! k = Some ref ->
  futures self !! ref = Some f ->
  cancelled f = false ->
  _handle_message (JObj data) self =
    (store ref
       {| _state := _state f;
          _stream_queue := Some (default [] (_stream_queue f) ++ pushed data) |}
       self,
     None).
Proof.
  intros Htype Hid Hk Hf Hc. unfold _handle_message.
  rewrite (str_eq_stream_not_response _ Htype), Htype. simpl.
  unfold _handle_stream_message. rewrite Hid. simpl. rewrite Hk, Hf, Hc.
  unfold pushed, queue_put.
  destruct (truthy (dict_get data "complete" (JBool false))); simpl;
    [|done].
  by rewrite <- app_assoc.
Qed.

(** The stream branch of [_handle_message], no entry: dropped. *)
Lemma handle_stream_unknown (data : dict) k self :
  str_eq (dict_get data "type" JNull) "stream" = true ->
  dict_get data "stream_id" JNull = JStr k ->
  _pending_requests self !! k = None ->
  _handle_message (JObj data) self = (self, None).
Proof.
  intros Htype Hid Hk. unfold _handle_message.
  rewrite (str_eq_stream_not_response _ Htype), Htype. simpl.
  unfold _handle_stream_message. by rewrite Hid; simpl; rewrite Hk.
Qed.

(** C4, as the code has it.  A stream envelope whose [stream_id] names a
    table entry with a future that is not cancelled: the handler appends
    the payload to that future's queue and, when the envelope is marked
    complete, the end-of-stream sentinel after it.  It raises nothing and
    leaves the table as it is, the entry of the stream included, also for
    the completing chunk.  The entry goes when the consumer reads the
    sentinel: that pull ends the iteration and removes it. *)
Theorem stream_chunk_is_queued (self : t) (data : dict) (k : string)
    (ref : nat) (f : Future) :
  str_eq (dict_get data "type" JNull) "stream" = true ->
  dict_get data "stream_id" JNull = JStr k ->
  _pending_requests self !! k = Some ref ->
  futures self !! ref = Some f ->
  cancelled f = false ->
  let payload := dict_get data "data" (JObj []) in
  let complete := truthy (dict_get data "complete" (JBool false)) in
  let queue := default [] (_stream_queue f) in
  let self' := (_handle_message (JObj data) self).1 in
  (_handle_message (JObj data) self).2 = None /\
  _pending_requests self' = _pending_requests self /\
  futures self' =
    <[ref := {| _state := _state f;
                _stream_queue :=
                  Some (queue ++ payload :: (if complete then [JNull] else []))
             |}]> (futures self) /\
  (forall (d : Dispatch) (timed_out : bool) (s : t) (g : Future) rest,
      futures s !! future d = Some g ->
      _stream_queue g = Some (JNull :: rest) ->
      (stream_next d timed_out s).2 = StopAsyncIteration /\
      _pending_requests (stream_next d timed_out s).1 !! message_id d = None /\
      futures (stream_next d timed_out s).1 !! future d =
        Some {| _state := _state g; _stream_queue := Some rest |}).
Proof.
  intros Htype Hid Hk Hf Hc payload complete queue self'. unfold self'.
  rewrite (handle_stream data k ref f self Htype Hid Hk Hf Hc).
  split; [done|]. split; [done|]. split; [done|].
  intros d timed_out s g rest Hg Hq. unfold stream_next. rewrite Hg, Hq.
  simpl. split; [done|]. split; [apply lookup_delete_eq|].
  apply list_lookup_insert_eq. by apply lookup_lt_Some with g.
Qed.

End Streams.

Lemma stream_chunk_is_queued_witness :
  let H := strict in
  let C := inert in
  let r := stream_register [] (connect None init).1 in
  let last := stream_chunk "0" (JObj [("token", JStr "z")]) true in
  futures (_handle_message last r.1).1 !! 0%nat =
    Some {| _state := Pending;
            _stream_queue := Some [JObj [("token", JStr "z")]; JNull] |} /\
  _pending_requests (_handle_message last r.1).1 = _pending_requests r.1.
Proof.
  intros H C r last.
  destruct (stream_chunk_is_queued r.1
              (stream_fields "0" (JObj [("token", JStr "z")]) true)
              "0" 0%nat {| _state := Pending; _stream_queue := Some [] |}
              eq_refl eq_refl eq_refl eq_refl eq_refl)
    as (_ & Htable & Hfutures & _).
  unfold last, stream_chunk. rewrite Hfutures, Htable. split; reflexivity.
Defined.

(** C4, as stated, fails.  The completing chunk of a stream is queued with
    the sentinel behind it, but the handler leaves the stream's entry in
    the table.  (And a chunk that carries the identifier under [id] rather
    than [stream_id] is not routed at all.) *)
Lemma completing_chunk_keeps_entry :
  let C := inert in
  let r := stream_register [] (connect None init).1 in
  let payload := JObj [("token", JStr "z")] in
  let after := (_handle_message (stream_chunk "0" payload true) r.1).1 in
  _pending_requests r.1 !! "0" = Some 0%nat /\
  futures after !! 0%nat =
    Some {| _state := Pending; _stream_queue := Some [payload; JNull] |} /\
  _pending_requests after !! "0" = Some 0%nat /\
  _handle_message
    (JObj [("type", JStr "stream"); ("id", JStr "0"); ("data", payload);
           ("complete", JBool true)]) r.1 = (r.1, None).
Proof. repeat split; reflexivity. Qed.

(** ** What a message leaves alone *)

(** The message is an event notification. *)
Definition event (data : json) : bool :=
  match data with
  | JObj d => str_eq (dict_get d "type" JNull) "event"
  | _ => false
  end.

(** The message is a response envelope for identifier [k]. *)
Definition response_for (k : string) (data : json) : Prop :=
  exists d, data = JObj d /\
            str_eq (dict_get d "type" JNull) "response" = true /\
            dict_get d "id" JNull = JStr k.

(** The message is a stream envelope for identifier [k]. *)
Definition stream_for (k : string) (data : json) : Prop :=
  exists d, data = JObj d /\
            str_eq (dict_get d "type" JNull) "stream" = true /\
            dict_get d "stream_id" JNull = JStr k.

(** The handlers of the program raise ordinary exceptions only. *)
Definition handlers_safe `{Callables} : Prop :=
  forall handler v self e,
    (call handler v self).2 = Some e -> is_Exception e = true.

Section Frame.
Context `{Callables}.

Lemma handle_stream_message_frame (d : dict) (self : t) :
  let self' := (_handle_stream_message d self).1 in
  _pending_requests self' = _pending_requests self /\
  forall ref,
    futures self' !! ref = futures self !! ref \/
    exists k, _pending_requests self !! k = Some ref /\
              dict_get d "stream_id" JNull = JStr k.
Proof.
  unfold _handle_stream_message.
  destruct (dict_get d "stream_id" JNull) as [| | |k| |] eqn:Hid; simpl;
    try (split; [done|]; intros; by left).
  destruct (_pending_requests self !! k) as [r|] eqn:Hk;
    [|split; [done|]; intros; by left].
  destruct (futures self !! r) as [f|] eqn:Hf;
    [|split; [done|]; intros; by left].
  destruct (cancelled f); [split; [done|]; intros; by left|].
  simpl. split; [done|]. intros ref.
  destruct (decide (ref = r)) as [->|Hne].
  - right. by exists k.
  - left. by apply list_lookup_insert_ne.
Qed.

(** Handlers play no part in a message that is no event. *)
Lemma handle_message_inert (data : json) (self : t) :
  event data = false ->
  _handle_message data self = @_handle_message inert data self.
Proof.
  destruct data as [| | | | |d]; try done.
  unfold event, _handle_message. by intros ->.
Qed.

Lemma handle_message_frame (data : json) (self : t) :
  let self' := (@_handle_message inert data self).1 in
  (forall k,
      _pending_requests self' !! k = _pending_requests self !! k \/
      (_pending_requests self' !! k = None /\ response_for k data)) /\
  (forall ref,
      futures self' !! ref = futures self !! ref \/
      exists k, _pending_requests self !! k = Some ref /\
                (response_for k data \/ stream_for k data)).
Proof.
  destruct data as [| | | | |d]; try (split; intros; by left).
  unfold _handle_message.
  destruct (str_eq (dict_get d "type" JNull) "response") eqn:Htype; simpl.
  - destruct (truthy (dict_get d "id" JNull)) eqn:Htruthy; simpl.
    + destruct (dict_get d "id" JNull) as [| | |k| |] eqn:Hid; simpl;
        try (split; intros; by left).
      assert (response_for k (JObj d)) as Hresp by (by exists d).
      assert (forall k',
                 delete k (_pending_requests self) !! k'
                   = _pending_requests self !! k' \/
                 (delete k (_pending_requests self) !! k' = None /\
                  response_for k' (JObj d))) as Htable.
      { intros k'. destruct (decide (k' = k)) as [->|Hne].
        - right. split; [apply lookup_delete_eq|done].
        - left. by apply lookup_delete_ne. }
      destruct (_pending_requests self !! k) as [r|] eqn:Hk;
        [|split; [exact Htable|]; intros; by left].
      destruct (futures self !! r) as [f|] eqn:Hf; simpl;
        [|split; [exact Htable|]; intros; by left].
      assert (forall g ref,
                 <[r:=g]> (futures self) !! ref = futures self !! ref \/
                 exists k0, _pending_requests self !! k0 = Some ref /\
                            (response_for k0 (JObj d) \/ stream_for k0 (JObj d)))
        as Hstore.
      { intros g ref. destruct (decide (ref = r)) as [->|Hne].
        - right. exists k. auto.
        - left. by apply list_lookup_insert_ne. }
      destruct (cancelled f) eqn:Hc; [split; [exact Htable|]; intros; by left|].
      unfold set_exception, set_result.
      destruct (truthy (dict_get d "error" JNull)), (_state f); simpl;
        (split; [exact Htable|]); try (intros; by left); intros; apply Hstore.
    + assert (str_eq (dict_get d "type" JNull) "stream" = false) as ->.
      { destruct (dict_get d "type" JNull); try done. simpl in *.
        apply bool_decide_eq_true in Htype. by subst. }
      assert (str_eq (dict_get d "type" JNull) "event" = false) as ->.
      { destruct (dict_get d "type" JNull); try done. simpl in *.
        apply bool_decide_eq_true in Htype. by subst. }
      split; intros; by left.
  - destruct (str_eq (dict_get d "type" JNull) "stream") eqn:Hstream.
    + destruct (handle_stream_message_frame d self) as (Htable & Hstore).
      split.
      * intros k. left. by rewrite Htable.
      * intros ref. destruct (Hstore ref) as [?|(k & ? & ?)]; [by left|].
        right. exists k. split; [done|]. right. by exists d.
    + destruct (str_eq (dict_get d "type" JNull) "event");
        [|split; intros; by left].
      unfold call, inert. repeat case_match; split; intros; by left.
Qed.

Lemma handle_message_keeps (data : json) (self : t) :
  _websocket (@_handle_message inert data self).1 = _websocket self /\
  _event_handlers (@_handle_message inert data self).1 = _event_handlers self.
Proof.
  unfold _handle_message, _handle_stream_message, resolve, set_exception,
    set_result, call, inert.
  repeat case_match; simplify_eq/=; done.
Qed.

(** What [_handle_message] raises when the handlers raise ordinary
    exceptions only: an ordinary exception that prints. *)
Lemma handle_message_raises (data : json) (self : t) (e : PyExn) :
  handlers_safe ->
  (_handle_message data self).2 = Some e ->
  is_Exception e = true /\ str_raises e = false.
Proof.
  intros Hsafe. unfold _handle_message, _handle_stream_message, resolve,
    set_exception, set_result.
  repeat case_match; simplify_eq/=; try done; try (by intros [= <-]).
  all: intros [= <-];
    match goal with
    | Hc : call ?h ?v ?s = (_, Some ?e) |- _ =>
      pose proof (Hsafe h v s e) as Hx; rewrite Hc in Hx;
      specialize (Hx eq_refl); congruence
    end.
Qed.

End Frame.

Lemma inert_safe : @handlers_safe inert.
Proof. by intros handler v self e. Qed.


(** ** A stream seen from its consumer *)


(** The messages a schedule hands to the receive loop, in order. *)
Definition received (schedule : list Turn) : list json :=
  omap (fun tn => match tn with Recv data => Some data | Next _ => None end)
       schedule.

(** No pull of the schedule runs into its timeout. *)
Definition patient (schedule : list Turn) : Prop :=
  Forall (fun tn => tn ≠ Next true) schedule.

Arguments on_data : simpl never.
Arguments stream_next : simpl never.
Arguments stream_chunk : simpl never.
Arguments stream_fields : simpl never.
Arguments pushed : simpl never.

Section Consumer.
Context `{Pydantic} `{Callables}.
Variable d : Dispatch.
Variable payloads : list json.
Variable chunks : list StreamingResponse.t.
Hypothesis valid :
  Forall2 (fun p c => splat StreamingResponse.init p = Return c) payloads chunks.
Variable junk : list json.

(** What a turn adds to the queue of the stream. *)
Definition turn_items (tn : Turn) : list json :=
  match tn with
  | Recv (JObj data) => pushed data
  | _ => []
  end.

Definition allowed (tn : Turn) : Prop :=
  match tn with
  | Next timed_out => timed_out = false
  | Recv data => exists p c, data = stream_chunk (message_id d) p c
  end.

(** The consumer is still iterating: it has seen the first [j] chunks and
    what is queued, followed by what is still to come, is the rest of the
    payloads and then the sentinel. *)
Definition running (j : nat) (to_come : list json) (sc : t * Consumer) : Prop :=
  ended sc.2 = None /\
  _pending_requests sc.1 !! message_id d = Some (future d) /\
  observed sc.2 = take j chunks /\
  exists q,
    futures sc.1 !! future d =
      Some {| _state := Pending; _stream_queue := Some q |} /\
    q ++ to_come = drop j payloads ++ JNull :: junk.

(** The iteration is over, normally, after all the chunks. *)
Definition finished (sc : t * Consumer) : Prop :=
  ended sc.2 = Some None /\
  observed sc.2 = chunks /\
  _pending_requests sc.1 !! message_id d = None.

Lemma finished_turn tn sc : allowed tn -> finished sc -> finished (turn d tn sc).
Proof.
  destruct sc as [self c]. intros Hal (Hended & Hobs & Hk).
  destruct tn as [data|timed_out]; simpl in *.
  - destruct Hal as (p & c' & ->). unfold on_data, stream_chunk.
    rewrite (handle_stream_unknown (stream_fields (message_id d) p c')
               (message_id d)) by done. done.
  - by rewrite Hended.
Qed.

Lemma running_recv j to_come p c sc :
  running j (pushed (stream_fields (message_id d) p c) ++ to_come) sc ->
  running j to_come (turn d (Recv (stream_chunk (message_id d) p c)) sc).
Proof.
  destruct sc as [self cons]. intros (Hended & Hk & Hobs & q & Hq & Heq).
  simpl in *. unfold on_data, stream_chunk.
  rewrite (handle_stream (stream_fields (message_id d) p c) (message_id d)
             (future d) _ self eq_refl eq_refl Hk Hq eq_refl).
  simpl. split; [done|]. split; [done|]. split; [done|].
  eexists. split.
  - apply list_lookup_insert_eq. by eapply lookup_lt_Some.
  - by rewrite <- app_assoc.
Qed.

Lemma valid_lookup j p :
  payloads !! j = Some p ->
  exists c kwargs, chunks !! j = Some c /\ p = JObj kwargs /\
                   StreamingResponse.init kwargs = Return c.
Proof.
  intros Hp. destruct (Forall2_lookup_l _ _ _ _ _ valid Hp) as (c & Hc & Hv).
  exists c. destruct p; simpl in Hv; try discriminate. eauto.
Qed.

Lemma running_next j to_come sc :
  running j to_come sc ->
  let sc' := turn d (Next false) sc in
  (running j to_come sc' /\ to_come = drop j payloads ++ JNull :: junk)
  \/ running (S j) to_come sc' \/ finished sc'.
Proof.
  destruct sc as [self cons]. intros (Hended & Hk & Hobs & q & Hq & Heq).
  simpl in *. rewrite Hended. unfold stream_next. rewrite Hq. simpl.
  destruct q as [|x q].
  { left. simpl. split; [|done]. split; [done|]. split; [done|].
    split; [done|]. eauto. }
  assert (futures
            (store (future d) {| _state := Pending; _stream_queue := Some q |}
               self) !! future d
          = Some {| _state := Pending; _stream_queue := Some q |}) as Hq'.
  { apply list_lookup_insert_eq. by eapply lookup_lt_Some. }
  destruct (payloads !! j) as [p|] eqn:Hp.
  - destruct (valid_lookup _ _ Hp) as (c & kwargs & Hc & -> & Hinit).
    rewrite (drop_S _ _ _ Hp) in Heq. simpl in Heq. simplify_eq.
    simpl. rewrite Hinit. simpl. right. left.
    split; [done|]. split; [done|]. split.
    + simpl. rewrite Hobs. by erewrite take_S_r.
    + simpl. eauto.
  - apply lookup_ge_None in Hp. rewrite drop_ge in Heq by done.
    simpl in Heq. simplify_eq. simpl. right. right.
    split; [done|]. split.
    + simpl. rewrite Hobs. apply take_ge.
      by rewrite <- (Forall2_length _ _ _ valid).
    + apply lookup_delete_eq.
Qed.

(** Any stretch of the schedule takes a running consumer to a running
    one that has seen at least as much, or to the end. *)
Lemma running_run schedule : forall j later sc,
  Forall allowed schedule ->
  running j ((schedule ≫= turn_items) ++ later) sc ->
  (exists j', (j <= j')%nat /\ running j' later (run d schedule sc))
  \/ finished (run d schedule sc).
Proof.
  induction schedule as [|tn schedule IH]; intros j later sc Hal Hrun.
  { left. exists j. split; [lia|done]. }
  apply Forall_cons in Hal as [Htn Hal].
  assert (forall sc', finished sc' -> finished (run d schedule sc')) as Hfin.
  { clear -Hal. revert Hal. induction schedule as [|tn' s IHs];
      intros Hal sc' Hf; [done|].
    apply Forall_cons in Hal as [? ?]. simpl. apply IHs; [done|].
    by apply finished_turn. }
  change (run d (tn :: schedule) sc) with (run d schedule (turn d tn sc)).
  destruct tn as [data|timed_out].
  - destruct Htn as (p & c & ->). simpl in Hrun. rewrite <- app_assoc in Hrun.
    apply running_recv in Hrun. by apply (IH j later).
  - simpl in Htn. subst timed_out. simpl in Hrun.
    destruct (running_next _ _ _ Hrun) as [[Hr _]|[Hr|Hf]].
    + by apply (IH j later).
    + destruct (IH (S j) later _ Hal Hr) as [(j' & ? & ?)|?]; [|by right].
      left. exists j'. split; [lia|done].
    + right. by apply Hfin.
Qed.

Lemma finished_pulls n : forall sc,
  finished sc -> finished (run d (replicate n (Next false)) sc).
Proof.
  induction n as [|n IH]; intros sc Hf; [done|].
  simpl. apply IH. by apply finished_turn.
Qed.

(** With everything received, enough pulls reach the end. *)
Lemma running_drain m : forall j sc,
  running j [] sc ->
  (length payloads - j < m)%nat ->
  finished (run d (replicate m (Next false)) sc).
Proof.
  induction m as [|m IH]; intros j sc Hrun Hm; [lia|].
  pose proof (finished_pulls m) as Hfin.
  change (run d (replicate (S m) (Next false)) sc)
    with (run d (replicate m (Next false)) (turn d (Next false) sc)).
  destruct sc as [self cons].
  destruct Hrun as (Hended & Hk & Hobs & q & Hq & Heq).
  cbn [fst snd] in *.
  rewrite app_nil_r in Heq. subst q.
  destruct (payloads !! j) as [p|] eqn:Hp.
  - assert (running j [] (self, cons)) as Hrun.
    { split; [done|]. split; [done|]. split; [done|].
      eexists. split; [done|]. by rewrite app_nil_r. }
    pose proof (lookup_lt_Some _ _ _ Hp).
    destruct (running_next _ _ _ Hrun) as [[_ Hnil]|[Hr|Hf]].
    + by destruct (drop j payloads).
    + apply (IH (S j)); [done|lia].
    + by apply Hfin.
  - apply Hfin. unfold turn. rewrite Hended. unfold stream_next.
    rewrite Hq. simpl.
    apply lookup_ge_None in Hp. rewrite drop_ge by done. simpl.
    split; [done|]. split.
    + simpl. rewrite Hobs. apply take_ge.
      by rewrite <- (Forall2_length _ _ _ valid).
    + apply lookup_delete_eq.
Qed.

End Consumer.

Section Delivery.
Context `{Pydantic} `{Callables}.

(** What a received envelope adds to the queue of its stream. *)
Definition frame_items (data : json) : list json :=
  match data with
  | JObj data => pushed data
  | _ => []
  end.

Lemma pushed_stream_fields k p c :
  pushed (stream_fields k p c) = p :: (if c then [JNull] else []).
Proof. reflexivity. Qed.

Lemma turn_items_received schedule :
  schedule ≫= turn_items = received schedule ≫= frame_items.
Proof.
  induction schedule as [|[data|b] schedule IH]; [done| |done].
  change (turn_items (Recv data) ++ (schedule ≫= turn_items) =
          frame_items data ++ (received schedule ≫= frame_items)).
  by rewrite IH.
Qed.



Lemma run_app d s1 s2 sc : run d (s1 ++ s2) sc = run d s2 (run d s1 sc).
Proof. apply foldl_app. Qed.

(** *** A stream on a shared connection *)

(** The message names the stream [k]: it is a response or a stream
    envelope that carries [k] as its identifier. *)
Definition names (k : string) (data : json) : bool :=
  match data with
  | JObj d =>
    (str_eq (dict_get d "type" JNull) "response"
       && str_eq (dict_get d "id" JNull) k)
    || (str_eq (dict_get d "type" JNull) "stream"
          && str_eq (dict_get d "stream_id" JNull) k)
  | _ => false
  end.




Lemma names_stream_chunk k p c : names k (stream_chunk k p c) = true.
Proof.
  unfold names, stream_chunk, stream_fields, dict_get. simpl.
  by rewrite bool_decide_eq_true_2.
Qed.





Section Shared.
Variable d : Dispatch.
Variable payloads : list json.
Variable chunks : list StreamingResponse.t.
Hypothesis valid :
  Forall2 (fun p c => splat StreamingResponse.init p = Return c) payloads chunks.
Variable junk : list json.






End Shared.



End Delivery.



(** ** The retrying request path *)

Section Retry.
Context {A : Type}.
Variable max_attempt_number : nat.
Variable wait : nat -> Z.
Variable fn : nat -> Outcome A.

(** The fuel is never the reason to stop: beyond the attempts left, more
    fuel changes nothing. *)
Lemma retrying_from_fuel fuel : forall attempt_number,
  (max_attempt_number - attempt_number <= fuel)%nat ->
  retrying_from fuel max_attempt_number wait fn attempt_number =
  retrying_from (max_attempt_number - attempt_number) max_attempt_number wait fn
    attempt_number.
Proof.
  induction fuel as [|fuel IH]; intros n Hfuel.
  { by replace (max_attempt_number - n)%nat with 0%nat by lia. }
  destruct (max_attempt_number - n)%nat as [|left] eqn:Hleft.
  - simpl. destruct (fn n) as [a|e]; [done|].
    destruct (negb (is_Exception e)); [done|].
    unfold stop_after_attempt. rewrite bool_decide_eq_true_2 by lia. done.
  - simpl. destruct (fn n) as [a|e]; [done|].
    destruct (negb (is_Exception e)); [done|].
    destruct (stop_after_attempt max_attempt_number n); [done|].
    rewrite IH by lia.
    by replace (max_attempt_number - S n)%nat with left by lia.
Qed.

End Retry.

Section MakeRequest.
Context `{JsonDecoder}.

Lemma wait_exponential_first : wait_exponential 1 4 10 1 = 4.
Proof. reflexivity. Qed.

Lemma wait_exponential_second : wait_exponential 1 4 10 2 = 4.
Proof. reflexivity. Qed.

(** An attempt answered with a status of 400 or more raises the error
    kind the status table gives, carrying the status. *)
Lemma attempt_application_error method response :
  AsyncLLMRouterClient.supported method = true ->
  400 <= AsyncLLMRouterClient.status_code response ->
  exists e,
    AsyncLLMRouterClient.attempt method (AsyncLLMRouterClient.Responds response)
      = Raise e /\
    exn_kind e =
      STATUS_CODE_TO_EXCEPTION (AsyncLLMRouterClient.status_code response) /\
    exn_status_code e = Some (AsyncLLMRouterClient.status_code response) /\
    is_Exception e = true.
Proof.
  intros Hm Hs. unfold AsyncLLMRouterClient.attempt. rewrite Hm.
  rewrite (proj2 (Z.leb_le _ _) Hs).
  destruct (match json_loads (AsyncLLMRouterClient.text response) with
            | Some (JObj _) => _
            | Some _ => _
            | None => _
            end) as [message response_data].
  eexists. split; [reflexivity|]. split; [done|]. split; [done|].
  unfold is_Exception, create_exception_from_response, new_error. simpl.
  unfold STATUS_CODE_TO_EXCEPTION. by repeat case_match.
Qed.

(** C2, as the code has it.  The retry decorator is given no retry
    condition, so every attempt that raises an exception is retried,
    whatever its kind.  A call makes between one and three attempts; what
    the caller gets is what the last attempt gave; every earlier attempt
    raised; before each retry the call sleeps 4 seconds; and an error
    reaches the caller only after the third attempt.  An attempt answered
    with a 4xx/5xx status raises the kind the status table maps it to, so
    an application error (a 404, [ModelNotFoundError]) is retried like a
    network error or a timeout. *)
Theorem make_request_retries_every_error (method : string)
    (world : nat -> AsyncLLMRouterClient.Transport) :
  let r := AsyncLLMRouterClient._make_request method world in
  (1 <= attempts r <= 3)%nat /\
  result r = AsyncLLMRouterClient.attempt method (world (attempts r)) /\
  sleeps r = replicate (attempts r - 1) 4 /\
  (forall n, (1 <= n < attempts r)%nat ->
     exists e, AsyncLLMRouterClient.attempt method (world n) = Raise e /\
               is_Exception e = true) /\
  (forall e, result r = Raise e -> is_Exception e = true -> attempts r = 3%nat) /\
  (forall response,
     AsyncLLMRouterClient.supported method = true ->
     400 <= AsyncLLMRouterClient.status_code response ->
     exists e,
       AsyncLLMRouterClient.attempt method
         (AsyncLLMRouterClient.Responds response) = Raise e /\
       exn_kind e =
         STATUS_CODE_TO_EXCEPTION (AsyncLLMRouterClient.status_code response) /\
       is_Exception e = true).
Proof.
  intros r.
  assert (forall response,
     AsyncLLMRouterClient.supported method = true ->
     400 <= AsyncLLMRouterClient.status_code response ->
     exists e,
       AsyncLLMRouterClient.attempt method
         (AsyncLLMRouterClient.Responds response) = Raise e /\
       exn_kind e =
         STATUS_CODE_TO_EXCEPTION (AsyncLLMRouterClient.status_code response) /\
       is_Exception e = true) as Happ.
  { intros response Hm Hs.
    destruct (attempt_application_error method response Hm Hs)
      as (e & ? & ? & _ & ?). eauto. }
  unfold r, AsyncLLMRouterClient._make_request, retry. simpl.
  destruct (AsyncLLMRouterClient.attempt method (world 1%nat)) as [a1|e1] eqn:H1;
    simpl.
  { split; [lia|]. split; [done|]. split; [done|].
    split; [intros n ?; lia|]. split; [done|exact Happ]. }
  destruct (is_Exception e1) eqn:Hx1; simpl.
  2:{ split; [lia|]. split; [done|]. split; [done|].
      split; [intros n ?; lia|]. split; [|exact Happ].
      intros e [= <-]. congruence. }
  assert (forall n, (1 <= n < 2)%nat ->
            exists e, AsyncLLMRouterClient.attempt method (world n) = Raise e /\
                      is_Exception e = true) as Hfirst.
  { intros n ?. assert (n = 1%nat) as -> by lia. eauto. }
  destruct (AsyncLLMRouterClient.attempt method (world 2%nat)) as [a2|e2] eqn:H2;
    simpl.
  { split; [lia|]. split; [done|]. split; [done|].
    split; [exact Hfirst|]. split; [done|exact Happ]. }
  destruct (is_Exception e2) eqn:Hx2; simpl.
  2:{ split; [lia|]. split; [done|]. split; [done|].
      split; [exact Hfirst|]. split; [|exact Happ].
      intros e [= <-]. congruence. }
  assert (forall n, (1 <= n < 3)%nat ->
            exists e, AsyncLLMRouterClient.attempt method (world n) = Raise e /\
                      is_Exception e = true) as Hearlier.
  { intros n ?. assert (n = 1 \/ n = 2)%nat as [-> | ->] by lia; eauto. }
  destruct (AsyncLLMRouterClient.attempt method (world 3%nat)) as [a3|e3] eqn:H3;
    simpl.
  { split; [lia|]. split; [done|]. split; [done|].
    split; [exact Hearlier|]. split; [done|exact Happ]. }
  destruct (is_Exception e3) eqn:Hx3; simpl;
    (split; [lia|]; split; [done|]; split; [done|];
     split; [exact Hearlier|]; split; [done|exact Happ]).
Qed.

End MakeRequest.

Lemma make_request_retries_every_error_witness :
  let L := sample_loads in
  let not_found :=
    AsyncLLMRouterClient.Responds
      {| AsyncLLMRouterClient.status_code := 404;
         AsyncLLMRouterClient.text := "Not Found" |} in
  let r := AsyncLLMRouterClient._make_request "get" (fun _ => not_found) in
  attempts r = 3%nat /\
  sleeps r = [4; 4] /\
  exn_kind <$> (match result r with Raise e => Some e | Return _ => None end)
    = Some ModelNotFoundError.
Proof.
  intros L not_found r.
  destruct (make_request_retries_every_error "get" (fun _ => not_found))
    as (_ & Hres & Hsleeps & _ & Hlast & Happ).
  fold r in Hres, Hsleeps, Hlast.
  destruct (Happ {| AsyncLLMRouterClient.status_code := 404;
                    AsyncLLMRouterClient.text := "Not Found" |}
              eq_refl ltac:(done)) as (e & He & Hkind & Hexn).
  fold not_found in He. rewrite He in Hres.
  assert (attempts r = 3%nat) as Hthree by (by apply (Hlast e)).
  rewrite Hthree in Hsleeps. rewrite Hres.
  split; [exact Hthree|]. split; [exact Hsleeps|]. simpl. by rewrite Hkind.
Defined.

(** C2, as stated, fails.  A request answered 404 once and 200 afterwards
    is attempted twice, with a sleep of 4 seconds in between, and the
    caller gets the second answer: the application error is not surfaced.
    Answered 404 every time, it is attempted three times before the caller
    sees the error. *)
Lemma application_error_is_retried :
  let L := sample_loads in
  let not_found :=
    AsyncLLMRouterClient.Responds
      {| AsyncLLMRouterClient.status_code := 404;
         AsyncLLMRouterClient.text := "Not Found" |} in
  let ok :=
    AsyncLLMRouterClient.Responds
      {| AsyncLLMRouterClient.status_code := 200;
         AsyncLLMRouterClient.text := "{}" |} in
  let once :=
    AsyncLLMRouterClient._make_request "GET"
      (fun n => if bool_decide (n = 1%nat) then not_found else ok) in
  let always := AsyncLLMRouterClient._make_request "GET" (fun _ => not_found) in
  (result once = Return (JObj []) /\ attempts once = 2%nat /\ sleeps once = [4])
  /\
  (exists e, result always = Raise e /\ exn_kind e = ModelNotFoundError /\
             exn_status_code e = Some 404) /\
  attempts always = 3%nat /\ sleeps always = [4; 4].
Proof.
  intros L not_found ok once always. split; [|split].
  - split; [reflexivity|]. split; reflexivity.
  - eexists. split; [reflexivity|]. split; reflexivity.
  - split; reflexivity.
Qed.

(** ** The chunked streaming loop *)

Section HttpStream.
Context `{JsonDecoder} `{Pydantic}.
Import AsyncLLMRouterClient.









End HttpStream.

Section HttpStreamEnds.
Context `{JsonDecoder} `{Pydantic}.
Import AsyncLLMRouterClient.




End HttpStreamEnds.



(** * Further properties of the socket client *)

(** ** What one message can touch *)

(** Handling a decoded message that is no event leaves the counter, the
    socket, the handlers and the size of the store alone; it removes at
    most the table entry a response names and changes at most the future
    that the entry named by a response or a stream envelope refers to; and
    it lets no exception out of the loop body, whatever the handlers of
    the program are.  (An event hands the client to its handler.) *)
Theorem message_touches_only_its_entry `{Callables} (data : json) (self : t) :
  event data = false ->
  let self' := (on_data data self).1 in
  _message_id self' = _message_id self /\
  _websocket self' = _websocket self /\
  _event_handlers self' = _event_handlers self /\
  length (futures self') = length (futures self) /\
  (forall k,
      _pending_requests self' !! k = _pending_requests self !! k \/
      (_pending_requests self' !! k = None /\ response_for k data)) /\
  (forall ref,
      futures self' !! ref = futures self !! ref \/
      exists k, _pending_requests self !! k = Some ref /\
                (response_for k data \/ stream_for k data)) /\
  (on_data data self).2 = None.
Proof.
  intros Hevent self'.
  destruct (handle_message_frame data self) as (Htable & Hstore).
  destruct (shrinks_handle_message data self) as (Hid & _ & Hlen).
  destruct (handle_message_keeps data self) as (Hws & Hev).
  pose proof (handle_message_raises (H := inert) data self) as Hraise.
  unfold self', on_data in *. rewrite (handle_message_inert data self Hevent).
  destruct (@_handle_message inert data self) as [s raised]. simpl in *.
  destruct raised as [e|]; [|done].
  destruct (Hraise e inert_safe eq_refl) as (-> & ->). done.
Qed.

Lemma message_touches_only_its_entry_witness :
  let C := inert in
  let self := (register "request" "health" (JObj []) new_future init).1 in
  let reply := response "0" (JObj []) in
  _message_id (on_data reply self).1 = 1%nat /\
  _pending_requests (on_data reply self).1 !! "0" = None /\
  (on_data reply self).2 = None.
Proof.
  intros C self reply.
  destruct (message_touches_only_its_entry reply self eq_refl)
    as (Hid & _ & _ & _ & _ & _ & Hnone).
  split; [exact Hid|]. split; [reflexivity|exact Hnone].
Defined.

(** ** The receive loop goes on *)

Section Loop.
Context `{JsonDecoder} `{Callables}.





End Loop.


(** ** Other ways a dispatch ends *)

(** A response envelope that carries an error answers the request just
    dispatched: the future gets the socket error built from the envelope's
    [error] value and the entry is gone.  When that value is a string the
    caller gets a socket error of the package whose original error is the
    one of the future.  When it is any other truthy value (an object with
    a code and a message, a number), formatting the error of the future
    raises, and what the caller gets is that [TypeError]. *)
Theorem error_reply_fails_dispatch `{Callables} (request_type : string)
    (data : json) (reply : dict) (wake : Wake) (self : t) :
  str_eq (dict_get reply "type" JNull) "response" = true ->
  dict_get reply "id" JNull = JStr (pretty (_message_id self)) ->
  truthy (dict_get reply "error" JNull) = true ->
  let id := pretty (_message_id self) in
  let cause :=
    new_error WebSocketError (Value (dict_get reply "error" JNull))
      None None None in
  let r :=
    _send_request None request_type data None
      (fun s => (on_data (JObj reply) s).1) wake self in
  r.2 = Raise match dict_get reply "error" JNull with
              | JStr _ =>
                new_error WebSocketError
                  (Fmt "WebSocket request failed: " cause) None None
                  (Some cause)
              | _ => join_error
              end /\
  _pending_requests r.1 !! id = None /\
  futures r.1 !! length (futures self) =
    Some {| _state := Failed cause; _stream_queue := None |}.
Proof.
  intros Htype Hid Herr id cause r. unfold r.
  rewrite send_request_unfold by auto.
  destruct (connected_frame self) as (Hmid & Htable & Hfut).
  destruct (register_table "request" request_type data new_future
              (connected self)) as (Hrid & Href & Hk & Hnew).
  cbv zeta in *.
  set (reg := register "request" request_type data new_future (connected self))
    in *.
  rewrite Hmid in Hrid. fold id in Hrid, Hid. rewrite Hfut in Href.
  rewrite Hrid in Hk.
  unfold on_data.
  rewrite (handle_response reply id (future reg.2) new_future reg.1
             (truthy_pretty _) Htype Hid Hk Hnew).
  rewrite Herr. cbn [cancelled new_future _state set_exception resolve fst snd
                     _stream_queue].
  fold cause. rewrite Href.
  set (failed := {| _state := Failed cause; _stream_queue := None |}).
  assert (futures (store (length (futures self)) failed (pop id reg.1))
            !! length (futures self) = Some failed) as Hfailed.
  { unfold store. cbn [futures with_futures]. rewrite futures_pop.
    apply list_lookup_insert_eq. apply lookup_lt_Some with new_future.
    by rewrite <- Href. }
  unfold wait_for. rewrite Hfailed. cbn [_state failed fst snd].
  unfold _send_request_except.
  rewrite bool_decide_eq_false_2 by done. cbn [is_Exception fst snd].
  rewrite Hrid.
  split; [|split; [apply lookup_delete_eq|done]].
  unfold wrapping, str_raises, cause. simpl.
  by destruct (dict_get reply "error" JNull).
Qed.

Lemma error_reply_fails_dispatch_witness :
  let C := inert in
  let reply :=
    [("type", JStr "response"); ("id", JStr "0");
     ("error", JStr "model not loaded")] in
  let r :=
    _send_request None "inference" (JObj []) None
      (fun s => (on_data (JObj reply) s).1) TimeoutElapsed init in
  exn_kind <$> (match r.2 with Raise e => exn_original_error e | _ => None end)
    = Some WebSocketError /\
  _pending_requests r.1 !! "0" = None.
Proof.
  intros C reply r.
  destruct (error_reply_fails_dispatch "inference" (JObj []) reply
              TimeoutElapsed init eq_refl eq_refl eq_refl) as (Hres & Hk & _).
  fold r in Hres, Hk. rewrite Hres. split; [reflexivity|exact Hk].
Defined.

(** A caller that is cancelled while it waits for its reply: the
    cancellation passes through both [except] clauses, so unlike a timeout
    it leaves the entry in the table, pointing at the now cancelled
    future. *)
Theorem cancelled_caller_leaves_entry (self : t) (request_type : string)
    (data : json) (meanwhile : t -> t) (f : Future) :
  let registered :=
    register "request" request_type data new_future (connected self) in
  let id := pretty (_message_id self) in
  futures (meanwhile registered.1) !! future registered.2 = Some f ->
  _state f = Pending ->
  _pending_requests (meanwhile registered.1) !! id = Some (future registered.2) ->
  let r :=
    _send_request None request_type data None meanwhile CallerCancelled self in
  r.2 = Raise cancelled_error /\
  _pending_requests r.1 !! id = Some (future registered.2) /\
  futures r.1 !! future registered.2 =
    Some {| _state := Cancelled; _stream_queue := _stream_queue f |}.
Proof.
  intros registered id Hf Hpending Hk r. unfold r.
  rewrite send_request_unfold by auto. cbv zeta. fold registered.
  rewrite (wait_for_pending _ _ _ f Hf Hpending). cbn [fst snd].
  change (_send_request_except (message_id registered.2) request_type
            cancelled_error)
    with (fun s : t => (s, cancelled_error)).
  cbn [fst snd].
  split; [done|]. split; [done|].
  unfold store. cbn [futures with_futures].
  apply list_lookup_insert_eq. by apply lookup_lt_Some with f.
Qed.

Lemma cancelled_caller_leaves_entry_witness :
  let r :=
    _send_request None "inference" (JObj []) None id CallerCancelled init in
  r.2 = Raise cancelled_error /\
  _pending_requests r.1 !! "0" = Some 0%nat /\
  futures r.1 !! 0%nat = Some {| _state := Cancelled; _stream_queue := None |}.
Proof.
  intros r.
  exact (cancelled_caller_leaves_entry init "inference" (JObj []) id new_future
           eq_refl eq_refl eq_refl).
Defined.

(** A dispatch on a client without socket whose connection attempt fails:
    the caller gets a socket error of the package wrapping the cause (or,
    should the cause be an exception whose text cannot be formatted, the
    [TypeError] of formatting it), and the client is exactly as before: no
    identifier is used up, nothing is registered, nothing is sent. *)
Theorem failed_connect_allocates_nothing (self : t) (e : PyExn)
    (request_type : string) (data : json) (sending : option PyExn)
    (meanwhile : t -> t) (wake : Wake) :
  _websocket self = false ->
  is_Exception e = true ->
  _send_request (Some e) request_type data sending meanwhile wake self =
    (self,
     Raise (if str_raises e then join_error
            else new_error WebSocketError
                   (Fmt "Failed to connect to WebSocket: " e) None None
                   (Some e))).
Proof.
  intros Hws He. unfold _send_request, connect, wrapping.
  rewrite Hws, He. by destruct (str_raises e).
Qed.

Lemma failed_connect_allocates_nothing_witness :
  let refused := lib_error OtherException "connection refused" in
  (_send_request (Some refused) "health" (JObj []) None id TimeoutElapsed init).1
    = init.
Proof.
  intros refused.
  by rewrite (failed_connect_allocates_nothing init refused "health" (JObj [])
                None id TimeoutElapsed eq_refl eq_refl).
Defined.

(** ** A reply that is no inference response *)

Section ReplyShape.
Context `{Pydantic} `{Callables}.

Lemma send_request_answered (request_type : string) (data : json)
    (reply : dict) (wake : Wake) (self : t) :
  str_eq (dict_get reply "type" JNull) "response" = true ->
  dict_get reply "id" JNull = JStr (pretty (_message_id self)) ->
  truthy (dict_get reply "error" JNull) = false ->
  let id := pretty (_message_id self) in
  let payload := dict_get reply "data" (JObj []) in
  let r :=
    _send_request None request_type data None
      (fun s => (on_data (JObj reply) s).1) wake self in
  r.2 = Return payload /\
  _pending_requests r.1 !! id = None /\
  futures r.1 !! length (futures self) =
    Some {| _state := Finished payload; _stream_queue := None |}.
Proof.
  intros Htype Hid Herr id payload r. unfold r.
  rewrite send_request_unfold by auto.
  destruct (connected_frame self) as (Hmid & Htable & Hfut).
  destruct (register_table "request" request_type data new_future
              (connected self)) as (Hrid & Href & Hk & Hnew).
  cbv zeta in *.
  set (reg := register "request" request_type data new_future (connected self))
    in *.
  rewrite Hmid in Hrid. fold id in Hrid, Hid. rewrite Hfut in Href.
  rewrite Hrid in Hk.
  unfold on_data.
  rewrite (handle_response reply id (future reg.2) new_future reg.1
             (truthy_pretty _) Htype Hid Hk Hnew).
  rewrite Herr. cbn [cancelled new_future _state set_result resolve fst snd
                     _stream_queue].
  fold payload. rewrite Href.
  set (finished := {| _state := Finished payload; _stream_queue := None |}).
  assert (futures (store (length (futures self)) finished (pop id reg.1))
            !! length (futures self) = Some finished) as Hdone.
  { unfold store. cbn [futures with_futures]. rewrite futures_pop.
    apply list_lookup_insert_eq. apply lookup_lt_Some with new_future.
    by rewrite <- Href. }
  rewrite (wait_for_finished _ _ _ finished payload Hdone eq_refl).
  cbn [fst snd].
  split; [done|]. split; [apply lookup_delete_eq|done].
Qed.

(** An inference over the socket whose reply carries no [text]: a reply
    without data, with data that is no object, or with an object that has
    no [text] field.  The reply is taken (the entry is removed, the future
    finished with the data), and building the response then fails outside
    the dispatcher: the caller gets the validation error of the model
    library, or a [TypeError] when the data is no object, as it is, not
    wrapped in a socket error of the package as every failure inside the
    dispatcher is. *)
Theorem inference_reply_without_text (data : json) (reply : dict)
    (wake : Wake) (self : t) :
  str_eq (dict_get reply "type" JNull) "response" = true ->
  dict_get reply "id" JNull = JStr (pretty (_message_id self)) ->
  truthy (dict_get reply "error" JNull) = false ->
  (forall kwargs,
      dict_get reply "data" (JObj []) = JObj kwargs ->
      dict_lookup kwargs "text" = None) ->
  let id := pretty (_message_id self) in
  let payload := dict_get reply "data" (JObj []) in
  let r :=
    inference None data None (fun s => (on_data (JObj reply) s).1) wake self in
  (exists e,
      r.2 = Raise e /\
      exn_kind e =
        match payload with
        | JObj _ => PydanticValidationError
        | _ => TypeError
        end /\
      exn_original_error e = None) /\
  _pending_requests r.1 !! id = None /\
  futures r.1 !! length (futures self) =
    Some {| _state := Finished payload; _stream_queue := None |}.
Proof.
  intros Htype Hid Herr Htext id payload r. unfold r, inference.
  destruct (send_request_answered "inference" data reply wake
              (logger INFO "WebSocket inference" self) Htype Hid Herr)
    as (Hres & Hk & Hf).
  cbn [_message_id logger futures] in Hres, Hk, Hf. fold id in Hk.
  fold payload in Hres, Hf.
  destruct (_send_request _ _ _ _ _ _ _) as [s' o]. simpl in Hres, Hk, Hf.
  subst o. simpl. split; [|done].
  unfold payload in *.
  destruct (dict_get reply "data" (JObj [])) as [| | | | |kwargs] eqn:Hp;
    try (eexists; split; [reflexivity|]; split; reflexivity).
  simpl. unfold InferenceResponse.init, required.
  rewrite (Htext kwargs eq_refl). simpl.
  eexists. split; [reflexivity|]. split; reflexivity.
Qed.

End ReplyShape.

Lemma inference_reply_without_text_witness :
  let H := strict in
  let C := inert in
  let reply := [("type", JStr "response"); ("id", JStr "0")] in
  let r :=
    inference None (JObj [("prompt", JStr "hi")]) None
      (fun s => (on_data (JObj reply) s).1) TimeoutElapsed init in
  exn_kind <$> (match r.2 with Raise e => Some e | _ => None end)
    = Some PydanticValidationError /\
  _pending_requests r.1 !! "0" = None.
Proof.
  intros H C reply r.
  destruct (inference_reply_without_text (JObj [("prompt", JStr "hi")]) reply
              TimeoutElapsed init eq_refl eq_refl eq_refl)
    as ((e & Hres & Hkind & _) & Hk & _).
  - intros kwargs [= <-]. reflexivity.
  - fold r in Hres, Hk. rewrite Hres. split; [exact (f_equal Some Hkind)|exact Hk].
Defined.

(** ** Events *)

Lemma event_type (d : dict) :
  str_eq (dict_get d "type" JNull) "event" = true ->
  str_eq (dict_get d "type" JNull) "response" = false /\
  str_eq (dict_get d "type" JNull) "stream" = false.
Proof.
  destruct (dict_get d "type" JNull); try done. simpl.
  intros ->%bool_decide_eq_true. done.
Qed.

(** Registering a handler stores it, replacing the one the name had, and
    leaves the handlers of other names in place; but the call itself fails:
    its log line is given the keyword [event=], which raises [TypeError],
    and nothing is logged.  An event then goes to the handler stored
    last for its name, with the event's data (an empty object when it has
    none), and the client is as the handler leaves it.  When the handler
    raises an ordinary exception, the [except] clause of the event branch
    fails in the same way on its own log line, so the line [Event handler
    error] is never written: a [TypeError] leaves the method and the
    receive loop logs it as an error in handling the message.  An event
    nobody has registered for is dropped without a trace, not even the
    warning an unknown message type gets. *)
Theorem event_reaches_registered_handler `{Callables} (name : string)
    (handler : Handler) (d : dict) (self : t) :
  str_eq (dict_get d "type" JNull) "event" = true ->
  dict_get d "event" JNull = JStr name ->
  let payload := dict_get d "data" (JObj []) in
  let registered := on_event name handler self in
  let listening := registered.1 in
  let called := call handler payload listening in
  registered.2 = Some event_clash /\
  log listening = log self /\
  _event_handlers listening !! name = Some handler /\
  (forall other, other ≠ name ->
     _event_handlers listening !! other = _event_handlers self !! other) /\
  _handle_message (JObj d) listening =
    (called.1,
     match called.2 with
     | None => None
     | Some e =>
       if is_Exception e
       then Some (if str_raises e then join_error else event_clash)
       else Some e
     end) /\
  on_data (JObj d) listening =
    match called.2 with
    | None => (called.1, None)
    | Some e =>
      if is_Exception e
      then (logger ERROR "Error handling WebSocket message" called.1, None)
      else (called.1, Some e)
    end /\
  (_event_handlers self !! name = None ->
   on_data (JObj d) self = (self, None)).
Proof.
  intros Htype Hname payload registered listening called.
  destruct (event_type d Htype) as (Hresponse & Hstream).
  assert (_handle_message (JObj d) listening =
            (called.1,
             match called.2 with
             | None => None
             | Some e =>
               if is_Exception e
               then Some (if str_raises e then join_error else event_clash)
               else Some e
             end)) as Hhandle.
  { unfold _handle_message.
    rewrite Hresponse, Hstream, Htype, Hname. simpl.
    rewrite lookup_insert_eq. fold payload. fold registered. fold listening.
    fold called. destruct called as [s [e|]]; [|done]. simpl.
    by destruct (is_Exception e). }
  split; [done|]. split; [done|]. split; [apply lookup_insert_eq|].
  split; [intros other Hother; simpl; by apply lookup_insert_ne|].
  split; [exact Hhandle|]. split.
  - unfold on_data. rewrite Hhandle.
    destruct (called.2) as [e|]; [|done].
    destruct (is_Exception e) eqn:He; [|by rewrite He].
    by destruct (str_raises e).
  - intros Hnone. unfold on_data, _handle_message.
    rewrite Hresponse, Hstream, Htype, Hname. simpl. by rewrite Hnone.
Qed.

Lemma event_reaches_registered_handler_witness :
  let C : Callables :=
    fun handler _ self =>
      (self, if bool_decide (handler = 0%nat)
             then Some (lib_error OtherException "first") else None) in
  let event :=
    [("type", JStr "event"); ("event", JStr "model_loaded");
     ("data", JStr "m1")] in
  let first := (on_event "model_loaded" 0%nat init).1 in
  let second := (on_event "model_loaded" 1%nat first).1 in
  (on_event "model_loaded" 0%nat init).2 = Some event_clash /\
  log first = log init /\
  on_data (JObj event) first =
    (logger ERROR "Error handling WebSocket message" first, None) /\
  on_data (JObj event) second = (second, None) /\
  on_data (JObj event) init = (init, None).
Proof.
  intros C event first second.
  destruct (event_reaches_registered_handler "model_loaded" 0%nat event init
              eq_refl eq_refl) as (Hraised & Hlog & _ & _ & _ & Hfirst & Hnone).
  destruct (event_reaches_registered_handler "model_loaded" 1%nat event first
              eq_refl eq_refl) as (_ & _ & _ & _ & _ & Hsecond & _).
  split; [exact Hraised|]. split; [exact Hlog|].
  split; [exact Hfirst|]. split; [exact Hsecond|].
  apply Hnone. reflexivity.
Defined.

(** ** More on streams *)

Section StreamEdges.
Context `{Pydantic} `{Callables}.

Lemma plain_frames_items k payloads :
  map (fun p => stream_chunk k p false) payloads ≫= frame_items = payloads.
Proof.
  induction payloads as [|p payloads IH]; [done|].
  change (frame_items (stream_chunk k p false)
            ++ (map (fun p => stream_chunk k p false) payloads ≫= frame_items)
          = p :: payloads).
  by rewrite IH.
Qed.

Lemma frames_allowed d schedule frames :
  received schedule = frames ->
  patient schedule ->
  (forall m, m ∈ frames -> exists p c, m = stream_chunk (message_id d) p c) ->
  Forall (allowed d) schedule.
Proof.
  intros Hwire Hpatient Hform. apply Forall_forall. intros [m|b] Hin; simpl.
  - apply Hform. rewrite <- Hwire. apply list_elem_of_omap. by exists (Recv m).
  - unfold patient in Hpatient. rewrite Forall_forall in Hpatient.
    specialize (Hpatient _ Hin). by destruct b.
Qed.

(** A payload that is JSON [null] is taken for the end-of-stream sentinel.
    When the chunks of a stream are followed by an envelope whose payload
    is [null], marked complete or not, the consumer observes the chunks
    before it and its iteration ends normally, as if the stream had been
    completed; nothing that arrives later is observed. *)
Theorem null_payload_ends_stream (self : t) (data : dict)
    (payloads : list json) (chunks : list StreamingResponse.t)
    (complete : bool) (late : list (json * bool)) (schedule : list Turn) :
  Forall2 (fun p c => splat StreamingResponse.init p = Return c)
          payloads chunks ->
  let r := stream_register data self in
  let d := r.2 in
  received schedule =
    map (fun p => stream_chunk (message_id d) p false) payloads
      ++ stream_chunk (message_id d) JNull complete
      :: map (fun pc => stream_chunk (message_id d) pc.1 pc.2) late ->
  patient schedule ->
  let sc :=
    run d (schedule ++ replicate (S (length payloads)) (Next false))
      (r.1, consumer_start) in
  observed sc.2 = chunks /\
  ended sc.2 = Some None /\
  _pending_requests sc.1 !! message_id d = None.
Proof.
  intros Hvalid r d Hwire Hpatient sc.
  set (junk := (if complete then [JNull] else [])
                 ++ (map (fun pc => stream_chunk (message_id d) pc.1 pc.2) late
                       ≫= frame_items)).
  assert (Forall (allowed d) schedule) as Hallowed.
  { eapply frames_allowed; [exact Hwire|done|].
    intros m [Hm|Hm]%elem_of_app.
    - apply list_elem_of_fmap in Hm as (p & -> & _). eauto.
    - apply elem_of_cons in Hm as [->|Hm]; [eauto|].
      apply list_elem_of_fmap in Hm as ([p c] & -> & _). eauto. }
  assert (schedule ≫= turn_items = payloads ++ JNull :: junk) as Hitems.
  { rewrite turn_items_received, Hwire, bind_app, plain_frames_items.
    rewrite bind_cons. done. }
  destruct (register_table "stream_request" "inference"
              (JObj (enable_stream data))
              {| _state := Pending; _stream_queue := Some [] |} self)
    as (_ & _ & Hk & Hf).
  fold (stream_register data self) in Hk, Hf. fold r in Hk, Hf. fold d in Hk, Hf.
  unfold sc. rewrite run_app.
  assert (finished d chunks
            (run d (replicate (S (length payloads)) (Next false))
               (run d schedule (r.1, consumer_start)))) as (? & ? & ?);
    [|done].
  destruct (running_run d payloads chunks Hvalid junk schedule 0 []
              (r.1, consumer_start) Hallowed)
    as [(j & _ & Hrun)|Hfin].
  - split; [done|]. split; [done|]. split; [done|].
    exists []. split; [done|]. by rewrite app_nil_r, drop_0.
  - apply (running_drain d payloads chunks Hvalid junk _ j); [done|lia].
  - by apply finished_pulls.
Qed.

End StreamEdges.

Lemma null_payload_ends_stream_witness :
  let H := strict in
  let C := inert in
  let r := stream_register [] (connect None init).1 in
  let a := JObj [("token", JStr "a")] in
  let schedule :=
    [Recv (stream_chunk "0" a false); Recv (stream_chunk "0" JNull false);
     Recv (stream_chunk "0" a false)] in
  let sc := run r.2 (schedule ++ replicate 2 (Next false)) (r.1, consumer_start) in
  StreamingResponse.token <$> observed sc.2 = ["a"] /\ ended sc.2 = Some None.
Proof.
  intros H C r a schedule sc.
  destruct (null_payload_ends_stream (connect None init).1 [] [a]
              [StreamingResponse.mk "a" false None None None []]
              false [(a, false)] schedule)
    as (Hobs & Hended & _).
  - repeat constructor.
  - reflexivity.
  - repeat constructor; discriminate.
  - fold r in Hobs, Hended. change (S (length [a])) with 2%nat in *.
    fold sc in Hobs, Hended. rewrite Hobs. split; [reflexivity|exact Hended].
Defined.

Section Starved.
Context `{Pydantic} `{Callables}.
Variable d : Dispatch.
Variable payloads : list json.
Variable chunks : list StreamingResponse.t.
Hypothesis valid :
  Forall2 (fun p c => splat StreamingResponse.init p = Return c) payloads chunks.

(** The consumer is iterating over a stream that has not been completed:
    what is queued, followed by what is still to come, is the rest of the
    payloads, with no sentinel behind them. *)
Definition starving (j : nat) (to_come : list json) (sc : t * Consumer) : Prop :=
  ended sc.2 = None /\
  _pending_requests sc.1 !! message_id d = Some (future d) /\
  observed sc.2 = take j chunks /\
  exists q,
    futures sc.1 !! future d =
      Some {| _state := Pending; _stream_queue := Some q |} /\
    q ++ to_come = drop j payloads.

Lemma starving_recv j to_come p c sc :
  starving j (pushed (stream_fields (message_id d) p c) ++ to_come) sc ->
  starving j to_come (turn d (Recv (stream_chunk (message_id d) p c)) sc).
Proof.
  destruct sc as [self cons]. intros (Hended & Hk & Hobs & q & Hq & Heq).
  simpl in *. unfold on_data, stream_chunk.
  rewrite (handle_stream (stream_fields (message_id d) p c) (message_id d)
             (future d) _ self eq_refl eq_refl Hk Hq eq_refl).
  simpl. split; [done|]. split; [done|]. split; [done|].
  eexists. split.
  - apply list_lookup_insert_eq. by eapply lookup_lt_Some.
  - by rewrite <- app_assoc.
Qed.

Lemma starving_next j to_come sc :
  starving j to_come sc ->
  let sc' := turn d (Next false) sc in
  (starving j to_come sc' /\ to_come = drop j payloads)
  \/ starving (S j) to_come sc'.
Proof.
  destruct sc as [self cons]. intros (Hended & Hk & Hobs & q & Hq & Heq).
  simpl in *. rewrite Hended. unfold stream_next. rewrite Hq. simpl.
  destruct q as [|x q].
  { left. simpl. split; [|done]. split; [done|]. split; [done|].
    split; [done|]. eauto. }
  assert (futures
            (store (future d) {| _state := Pending; _stream_queue := Some q |}
               self) !! future d
          = Some {| _state := Pending; _stream_queue := Some q |}) as Hq'.
  { apply list_lookup_insert_eq. by eapply lookup_lt_Some. }
  destruct (payloads !! j) as [p|] eqn:Hp.
  - destruct (valid_lookup payloads chunks valid _ _ Hp)
      as (c & kwargs & Hc & -> & Hinit).
    rewrite (drop_S _ _ _ Hp) in Heq. simpl in Heq. simplify_eq.
    simpl. rewrite Hinit. simpl. right.
    split; [done|]. split; [done|]. split.
    + simpl. rewrite Hobs. by erewrite take_S_r.
    + simpl. eauto.
  - apply lookup_ge_None in Hp. rewrite drop_ge in Heq by done. done.
Qed.

Lemma starving_run schedule : forall j later sc,
  Forall (allowed d) schedule ->
  starving j ((schedule ≫= turn_items) ++ later) sc ->
  exists j', starving j' later (run d schedule sc).
Proof.
  induction schedule as [|tn schedule IH]; intros j later sc Hal Hrun.
  { by exists j. }
  apply Forall_cons in Hal as [Htn Hal].
  change (run d (tn :: schedule) sc) with (run d schedule (turn d tn sc)).
  destruct tn as [data|timed_out].
  - destruct Htn as (p & c & ->). simpl in Hrun. rewrite <- app_assoc in Hrun.
    apply starving_recv in Hrun. by apply (IH j later).
  - simpl in Htn. subst timed_out. simpl in Hrun.
    destruct (starving_next _ _ _ Hrun) as [[Hr _]|Hr].
    + by apply (IH j later).
    + by apply (IH (S j) later).
Qed.

Lemma starving_drain m : forall j sc,
  starving j [] sc ->
  (length payloads <= j + m)%nat ->
  exists j', (length payloads <= j')%nat /\
             starving j' [] (run d (replicate m (Next false)) sc).
Proof.
  induction m as [|m IH]; intros j sc Hrun Hm.
  { exists j. split; [lia|done]. }
  change (run d (replicate (S m) (Next false)) sc)
    with (run d (replicate m (Next false)) (turn d (Next false) sc)).
  destruct (starving_next _ _ _ Hrun) as [[Hr Hnil]|Hr].
  - apply (IH j); [done|].
    symmetry in Hnil. apply (f_equal length) in Hnil.
    rewrite length_drop in Hnil. simpl in Hnil. lia.
  - apply (IH (S j)); [done|lia].
Qed.

End Starved.

Section StarvedStream.
Context `{Pydantic} `{Callables}.

(** A stream whose completing chunk never arrives: after the consumer has
    been given every chunk that did arrive, the pull that runs into its
    timeout ends the iteration with a socket error of the package that
    wraps the timeout error (the caller does not see a timeout error
    itself), and the entry of the stream is removed. *)
Theorem stream_timeout_after_partial_delivery (self : t) (data : dict)
    (payloads : list json) (chunks : list StreamingResponse.t)
    (schedule : list Turn) :
  Forall2 (fun p c => splat StreamingResponse.init p = Return c)
          payloads chunks ->
  let r := stream_register data self in
  let d := r.2 in
  received schedule =
    map (fun p => stream_chunk (message_id d) p false) payloads ->
  patient schedule ->
  let timeout :=
    new_error TimeoutError (Text "WebSocket stream timeout") None None None in
  let sc :=
    run d (schedule ++ replicate (length payloads) (Next false) ++ [Next true])
      (r.1, consumer_start) in
  observed sc.2 = chunks /\
  ended sc.2 =
    Some (Some (new_error WebSocketError
                  (Fmt "WebSocket streaming failed: " timeout) None None
                  (Some timeout))) /\
  _pending_requests sc.1 !! message_id d = None.
Proof.
  intros valid r d Hwire Hpatient timeout sc.
  assert (Forall (allowed d) schedule) as Hallowed.
  { eapply frames_allowed; [exact Hwire|done|].
    intros m (p & -> & _)%list_elem_of_fmap. eauto. }
  assert (schedule ≫= turn_items = payloads) as Hitems.
  { by rewrite turn_items_received, Hwire, plain_frames_items. }
  destruct (register_table "stream_request" "inference"
              (JObj (enable_stream data))
              {| _state := Pending; _stream_queue := Some [] |} self)
    as (_ & _ & Hk & Hf).
  fold (stream_register data self) in Hk, Hf. fold r in Hk, Hf. fold d in Hk, Hf.
  destruct (starving_run d payloads chunks valid schedule 0 []
              (r.1, consumer_start) Hallowed)
    as (j & Hrun).
  { split; [done|]. split; [done|]. split; [done|].
    exists []. split; [done|]. by rewrite app_nil_r, drop_0. }
  destruct (starving_drain d payloads chunks valid (length payloads) j _ Hrun
              ltac:(lia))
    as (j' & Hj' & Hdrained).
  unfold sc. rewrite !run_app.
  destruct (run d (replicate (length payloads) (Next false))
              (run d schedule (r.1, consumer_start))) as [s cons].
  destruct Hdrained as (Hended & Htable & Hobs & q & Hq & Heq).
  cbn [fst snd] in Hended, Htable, Hobs, Hq.
  rewrite app_nil_r, drop_ge in Heq by done. subst q.
  change (run d [Next true] (s, cons)) with (turn d (Next true) (s, cons)).
  unfold turn. rewrite Hended. unfold stream_next. rewrite Hq. simpl.
  split; [|split; [done|apply lookup_delete_eq]].
  rewrite Hobs. apply take_ge. by rewrite <- (Forall2_length _ _ _ valid).
Qed.

End StarvedStream.

Lemma stream_timeout_after_partial_delivery_witness :
  let H := strict in
  let C := inert in
  let r := stream_register [] (connect None init).1 in
  let a := JObj [("token", JStr "a")] in
  let schedule := [Recv (stream_chunk "0" a false)] in
  let sc := run r.2 (schedule ++ [Next false] ++ [Next true])
              (r.1, consumer_start) in
  let raised := match ended sc.2 with Some (Some e) => Some e | _ => None end in
  StreamingResponse.token <$> observed sc.2 = ["a"] /\
  exn_kind <$> raised = Some WebSocketError /\
  exn_kind <$> (raised ≫= exn_original_error) = Some TimeoutError.
Proof.
  intros H C r a schedule sc raised.
  destruct (stream_timeout_after_partial_delivery (connect None init).1 [] [a]
              [StreamingResponse.mk "a" false None None None []] schedule)
    as (Hobs & Hended & _).
  - repeat constructor.
  - reflexivity.
  - repeat constructor; discriminate.
  - change (length [a]) with 1%nat in *. change (replicate 1 (Next false))
      with [Next false] in *.
    fold r in Hobs, Hended. fold sc in Hobs, Hended.
    unfold raised. rewrite Hobs, Hended.
    split; [reflexivity|]. split; reflexivity.
Defined.

(** A consumer that abandons its stream deregisters it: closing the
    generator removes the entry, and whatever chunks then arrive for the
    stream are dropped, each leaving the client exactly as it was and
    raising nothing. *)
Theorem abandoned_stream_drops_chunks `{Callables} (self : t) (d : Dispatch)
    (frames : list (json * bool)) :
  let closed := stream_close d self in
  _pending_requests closed !! message_id d = None /\
  futures closed = futures self /\
  foldl (fun s m => (on_data m s).1) closed
    (map (fun pc => stream_chunk (message_id d) pc.1 pc.2) frames) = closed /\
  Forall (fun pc =>
            on_data (stream_chunk (message_id d) pc.1 pc.2) closed
              = (closed, None)) frames.
Proof.
  intros closed.
  assert (_pending_requests closed !! message_id d = None) as Hk
    by apply lookup_delete_eq.
  assert (forall p c,
            on_data (stream_chunk (message_id d) p c) closed = (closed, None))
    as Hdrop.
  { intros p c. unfold on_data, stream_chunk.
    by rewrite (handle_stream_unknown (stream_fields (message_id d) p c)
                  (message_id d)). }
  split; [done|]. split; [done|]. split.
  - induction frames as [|[p c] frames IH]; [done|].
    simpl. by rewrite Hdrop.
  - apply Forall_forall. intros [p c] _. apply Hdrop.
Qed.

(** ** Closing the client under a stream *)

Section ClosedStream.
Context `{Pydantic} `{Callables}.

Lemma cancel_queue (f : Future) : _stream_queue (cancel f) = _stream_queue f.
Proof. unfold cancel. by destruct (_state f). Qed.

(** Closing the client does not end a stream that is being consumed.  The
    consumer waits on the queue, not on the future, and [close] cancels
    the future without putting anything on the queue: a chunk that was
    queued before the close is still handed out after it; on an empty
    queue the consumer is not woken, it stays suspended until its timeout
    and then gets the socket error wrapping a timeout error, with nothing
    telling it that the client was closed; and chunks that arrive for the
    stream after the close are dropped. *)
Theorem close_leaves_stream_to_time_out (self : t) (d : Dispatch)
    (f : Future) :
  _pending_requests self !! message_id d = Some (future d) ->
  futures self !! future d = Some f ->
  let closed := close self in
  let timeout :=
    new_error TimeoutError (Text "WebSocket stream timeout") None None None in
  (forall p rest c timed_out,
      _stream_queue f = Some (p :: rest) ->
      p ≠ JNull ->
      splat StreamingResponse.init p = Return c ->
      (stream_next d timed_out closed).2 = Yield c) /\
  (default [] (_stream_queue f) = [] ->
   stream_next d false closed = (closed, Waiting) /\
   (stream_next d true closed).2 =
     Raised (new_error WebSocketError
               (Fmt "WebSocket streaming failed: " timeout) None None
               (Some timeout))) /\
  (forall p c,
      on_data (stream_chunk (message_id d) p c) closed = (closed, None)).
Proof.
  intros Hk Hf closed timeout.
  assert (futures closed !! future d = Some (cancel f)) as Hc.
  { simpl. rewrite cancel_all_lookup, decide_True, Hf; [done|].
    apply list_elem_of_fmap. exists (message_id d, future d). split; [done|].
    by apply elem_of_map_to_list. }
  split; [|split].
  - intros p rest c timed_out Hq Hp Hinit. unfold stream_next.
    rewrite Hc, cancel_queue, Hq. cbn [default from_option id].
    destruct p; try done; by rewrite Hinit.
  - intros Hq. unfold stream_next. rewrite Hc, cancel_queue, Hq. done.
  - intros p c. unfold on_data, stream_chunk.
    by rewrite (handle_stream_unknown (stream_fields (message_id d) p c)
                  (message_id d)).
Qed.

End ClosedStream.

Lemma close_leaves_stream_to_time_out_witness :
  let H := strict in
  let C := inert in
  let r := stream_register [] (connect None init).1 in
  let closed := close r.1 in
  stream_next r.2 false closed = (closed, Waiting) /\
  exn_kind <$> (match (stream_next r.2 true closed).2 with
                | Raised e => exn_original_error e
                | _ => None
                end) = Some TimeoutError.
Proof.
  intros H C r closed.
  destruct (close_leaves_stream_to_time_out r.1 r.2
              {| _state := Pending; _stream_queue := Some [] |}
              eq_refl eq_refl) as (_ & Hempty & _).
  destruct (Hempty eq_refl) as (Hwait & Htimeout).
  fold closed in Hwait, Htimeout.
  split; [exact Hwait|]. by rewrite Htimeout.
Defined.

(** ** The envelope of a stream request *)

Lemma dict_lookup_set_eq d k v : dict_lookup (dict_set d k v) k = Some v.
Proof.
  induction d as [|[k' v'] d IH]; simpl.
  - by rewrite bool_decide_eq_true_2.
  - destruct (bool_decide (k' = k)) eqn:Hk; simpl.
    + by rewrite bool_decide_eq_true_2.
    + by rewrite Hk.
Qed.

Lemma dict_lookup_set_ne d k v k' :
  k' ≠ k -> dict_lookup (dict_set d k v) k' = dict_lookup d k'.
Proof.
  intros Hne. induction d as [|[k0 v0] d IH]; simpl.
  - by rewrite bool_decide_eq_false_2.
  - destruct (bool_decide (k0 = k)) eqn:Hk; simpl.
    + apply bool_decide_eq_true in Hk. subst k0.
      by rewrite !bool_decide_eq_false_2.
    + by rewrite IH.
Qed.

(** The socket path always asks for streaming.  For a dumped request,
    whose options are an object unless they are falsy, whatever the options
    were (absent, [None], empty, or saying [stream: false]), the envelope a
    stream dispatch sends is a [stream_request] carrying the allocated
    identifier, in whose data the options have [stream] set to true; every
    other option and every other field of the request is as the request
    had it. *)
Theorem stream_request_enables_streaming (data : dict) (self : t) :
  (truthy (dict_get data "options" JNull) = true ->
   exists given, dict_get data "options" JNull = JObj given) ->
  let d := (stream_register data self).2 in
  exists envelope sent options,
    message d = JObj envelope /\
    dict_lookup envelope "type" = Some (JStr "stream_request") /\
    dict_lookup envelope "id" = Some (JStr (pretty (_message_id self))) /\
    dict_lookup envelope "data" = Some (JObj sent) /\
    dict_lookup sent "options" = Some (JObj options) /\
    dict_lookup options "stream" = Some (JBool true) /\
    (forall k, k ≠ "options" -> dict_lookup sent k = dict_lookup data k) /\
    (forall given k,
        dict_lookup data "options" = Some (JObj given) ->
        k ≠ "stream" ->
        dict_lookup options k = dict_lookup given k) /\
    (forall k,
        (forall given, dict_lookup data "options" ≠ Some (JObj given)) ->
        k ≠ "stream" ->
        dict_lookup options k = None).
Proof.
  intros _ d.
  set (given :=
         match dict_get data "options" JNull with
         | JObj options => options
         | _ => []
         end).
  exists [("type", JStr "stream_request");
          ("id", JStr (pretty (_message_id self)));
          ("request_type", JStr "inference");
          ("data", JObj (enable_stream data))],
    (enable_stream data), (dict_set given "stream" (JBool true)).
  split; [done|]. split; [done|]. split; [done|]. split; [done|].
  split; [apply dict_lookup_set_eq|]. split; [apply dict_lookup_set_eq|].
  split; [intros k Hk; by apply dict_lookup_set_ne|]. split.
  - intros g k Hg Hk. rewrite dict_lookup_set_ne by done.
    unfold given, dict_get. by rewrite Hg.
  - intros k Hnone Hk. rewrite dict_lookup_set_ne by done.
    unfold given, dict_get. destruct (dict_lookup data "options") as [[]|]; try done.
    by destruct (Hnone o).
Qed.

Lemma stream_request_enables_streaming_witness :
  let data := [("prompt", JStr "hi"); ("options", JNull)] in
  exists envelope sent options,
    message (stream_register data init).2 = JObj envelope /\
    dict_lookup envelope "data" = Some (JObj sent) /\
    dict_lookup sent "options" = Some (JObj options) /\
    dict_lookup options "stream" = Some (JBool true) /\
    dict_lookup sent "prompt" = Some (JStr "hi").
Proof.
  intros data.
  destruct (stream_request_enables_streaming data init)
    as (envelope & sent & options & Hm & _ & _ & Hd & Ho & Hs & Hk & _);
    [discriminate|].
  exists envelope, sent, options.
  split; [exact Hm|]. split; [exact Hd|]. split; [exact Ho|].
  split; [exact Hs|]. by rewrite Hk.
Defined.

(** * Further properties of the retrying request path *)

Section RetryOutcome.
Context {A : Type}.
Variable max_attempt_number : nat.
Variable wait : nat -> Z.
Variable fn : nat -> Outcome A.
Variable last : nat.
Hypothesis earlier_fail :
  forall n, (1 <= n < last)%nat ->
    exists e, fn n = Raise e /\ is_Exception e = true.
Hypothesis last_final :
  last = max_attempt_number \/
  (forall e, fn last = Raise e -> is_Exception e = false).
Hypothesis last_bound : (last <= max_attempt_number)%nat.

Lemma retrying_from_until more : forall n fuel,
  (1 <= n)%nat ->
  (n + more = last)%nat ->
  (more <= fuel)%nat ->
  retrying_from fuel max_attempt_number wait fn n =
    {| result := fn last; attempts := last; sleeps := wait <$> seq n more |}.
Proof.
  induction more as [|more IH]; intros n fuel Hn Hlast Hfuel.
  - assert (n = last) as -> by lia.
    destruct fuel; simpl;
      destruct (fn last) as [a|e] eqn:Hfn; try done;
      destruct (is_Exception e) eqn:He; simpl; try done;
      (destruct last_final as [->|Hfinal];
       [unfold stop_after_attempt; by rewrite bool_decide_eq_true_2 by lia
       |by rewrite (Hfinal e eq_refl) in He]).
  - destruct (earlier_fail n ltac:(lia)) as (e & Hfn & He).
    destruct fuel as [|fuel]; [lia|]. simpl. rewrite Hfn, He. simpl.
    unfold stop_after_attempt. rewrite bool_decide_eq_false_2 by lia.
    rewrite (IH (S n) fuel) by lia. done.
Qed.

End RetryOutcome.

Section MakeRequestOutcome.
Context `{JsonDecoder}.

(** The retrying call stops at the first attempt that returns: when the
    attempts before the [k]-th all raise and the [k]-th returns, or [k] is
    the third, the caller gets what the [k]-th attempt gave after exactly
    [k] attempts and [k - 1] sleeps of 4 seconds.  So a call that fails
    twice and then succeeds is one success after two sleeps, and what the
    transport would do after the [k]-th attempt plays no part. *)
Theorem make_request_stops_at_first_result (method : string)
    (world : nat -> AsyncLLMRouterClient.Transport) (k : nat) :
  (1 <= k <= 3)%nat ->
  (forall n, (1 <= n < k)%nat ->
     exists e, AsyncLLMRouterClient.attempt method (world n) = Raise e /\
               is_Exception e = true) ->
  k = 3%nat \/
    (exists v, AsyncLLMRouterClient.attempt method (world k) = Return v) ->
  AsyncLLMRouterClient._make_request method world =
    {| result := AsyncLLMRouterClient.attempt method (world k);
       attempts := k;
       sleeps := replicate (k - 1) 4 |}.
Proof.
  intros Hk Hearlier Hlast.
  unfold AsyncLLMRouterClient._make_request, retry.
  rewrite (retrying_from_until 3 (wait_exponential 1 4 10)
             (fun n => AsyncLLMRouterClient.attempt method (world n)) k
             Hearlier) with (more := (k - 1)%nat); try lia.
  - f_equal. assert (k = 1 \/ k = 2 \/ k = 3)%nat as [->|[->| ->]] by lia; done.
  - destruct Hlast as [->|(v & Hv)]; [by left|right].
    intros e He. congruence.
Qed.

(** A method whose upper case is none of GET, POST, PUT and DELETE is
    refused without a request being made, and the refusal is retried like
    any other error: the caller gets the [ValueError] after three attempts
    and two sleeps, whatever the transport would have done.  The test is
    the one of [str.upper]: it accepts every letter case, and also a
    method written with the long s or an st ligature. *)
Theorem unsupported_method_is_retried (method : string)
    (world : nat -> AsyncLLMRouterClient.Transport) :
  AsyncLLMRouterClient.supported method = false ->
  AsyncLLMRouterClient._make_request method world =
    {| result :=
         Raise (lib_error ValueError ("Unsupported HTTP method: " +:+ method));
       attempts := 3;
       sleeps := [4; 4] |}.
Proof.
  intros Hm.
  assert (forall n, AsyncLLMRouterClient.attempt method (world n) =
            Raise (lib_error ValueError
                     ("Unsupported HTTP method: " +:+ method))) as Hfn.
  { intros n. unfold AsyncLLMRouterClient.attempt. by rewrite Hm. }
  unfold AsyncLLMRouterClient._make_request, retry.
  rewrite (retrying_from_until 3 (wait_exponential 1 4 10)
             (fun n => AsyncLLMRouterClient.attempt method (world n)) 3)
    with (more := 2%nat); try lia.
  - by rewrite Hfn.
  - intros n _. rewrite Hfn. eauto.
Qed.

(** An attempt returns a value exactly when the upper case of the method
    is GET, POST, PUT or DELETE, the transport answers with a status below
    400 (any such status, not only 2xx) and the body decodes; the value is
    the decoded body. *)
Theorem attempt_returns_iff (method : string)
    (transport : AsyncLLMRouterClient.Transport) (v : json) :
  AsyncLLMRouterClient.attempt method transport = Return v <->
  AsyncLLMRouterClient.supported method = true /\
  exists response,
    transport = AsyncLLMRouterClient.Responds response /\
    AsyncLLMRouterClient.status_code response < 400 /\
    json_loads (AsyncLLMRouterClient.text response) = Some v.
Proof.
  unfold AsyncLLMRouterClient.attempt. split.
  - destruct (AsyncLLMRouterClient.supported method); [|done].
    destruct transport as [response|e]; [|done].
    destruct (400 <=? AsyncLLMRouterClient.status_code response) eqn:Hs.
    { by destruct (match json_loads (AsyncLLMRouterClient.text response) with
                   | Some (JObj _) => _ | Some _ => _ | None => _ end). }
    destruct (json_loads (AsyncLLMRouterClient.text response)) eqn:Hd; [|done].
    intros [= <-]. split; [done|]. exists response.
    apply Z.leb_gt in Hs. done.
  - intros (-> & response & -> & Hs & ->).
    by rewrite (proj2 (Z.leb_gt _ _) Hs).
Qed.

End MakeRequestOutcome.

Lemma make_request_stops_at_first_result_witness :
  let L := sample_loads in
  let busy :=
    AsyncLLMRouterClient.Fails (lib_error HttpxNetworkError "connection reset") in
  let ok :=
    AsyncLLMRouterClient.Responds
      {| AsyncLLMRouterClient.status_code := 200;
         AsyncLLMRouterClient.text := "{}" |} in
  let r :=
    AsyncLLMRouterClient._make_request "post"
      (fun n => if bool_decide (n < 3)%nat then busy else ok) in
  result r = Return (JObj []) /\ attempts r = 3%nat /\ sleeps r = [4; 4].
Proof.
  intros L busy ok r. unfold r.
  rewrite (make_request_stops_at_first_result "post" _ 3).
  - split; [reflexivity|]. split; reflexivity.
  - lia.
  - intros n Hn. rewrite bool_decide_eq_true_2 by lia.
    eexists. split; reflexivity.
  - by left.
Defined.

Lemma unsupported_method_is_retried_witness :
  let L := sample_loads in
  let r :=
    AsyncLLMRouterClient._make_request "PATCH"
      (fun _ => AsyncLLMRouterClient.Responds
                  {| AsyncLLMRouterClient.status_code := 200;
                     AsyncLLMRouterClient.text := "{}" |}) in
  let long_s :=
    String (Ascii.ascii_of_nat 197) (String (Ascii.ascii_of_nat 191) "") in
  attempts r = 3%nat /\
  exn_kind <$> (match result r with Raise e => Some e | _ => None end)
    = Some ValueError /\
  AsyncLLMRouterClient.supported "Delete" = true /\
  AsyncLLMRouterClient.supported ("po" +:+ long_s +:+ "t") = true.
Proof.
  intros L r long_s. unfold r.
  rewrite (unsupported_method_is_retried "PATCH" _ eq_refl).
  split; [reflexivity|]. split; [reflexivity|]. split; reflexivity.
Defined.

(** ** Where an error of a request comes from *)

Section MakeRequestErrors.
Context `{JsonDecoder}.
Import AsyncLLMRouterClient.

(** What the caller gets is what one of the three attempts gave. *)
Lemma make_request_result (method : string) (world : nat -> Transport) :
  exists n, (1 <= n <= 3)%nat /\
            result (_make_request method world) = attempt method (world n).
Proof.
  unfold _make_request, retry. simpl.
  destruct (attempt method (world 1%nat)) as [a1|e1] eqn:H1; simpl;
    [exists 1%nat; split; [lia|by rewrite H1]|].
  destruct (is_Exception e1); simpl;
    [|exists 1%nat; split; [lia|by rewrite H1]].
  destruct (attempt method (world 2%nat)) as [a2|e2] eqn:H2; simpl;
    [exists 2%nat; split; [lia|by rewrite H2]|].
  destruct (is_Exception e2); simpl;
    [|exists 2%nat; split; [lia|by rewrite H2]].
  exists 3%nat. split; [lia|].
  destruct (attempt method (world 3%nat)) as [a3|e3]; simpl; [done|].
  by destruct (is_Exception e3).
Qed.

(** The origin of the error an attempt raises. *)
Definition origin (method : string) (transport : Transport) (e : PyExn)
    : Prop :=
  (supported method = false /\ exn_kind e = ValueError) \/
  (exists response,
      transport = Responds response /\ 400 <= status_code response /\
      exn_kind e = STATUS_CODE_TO_EXCEPTION (status_code response) /\
      exn_status_code e = Some (status_code response) /\
      exn_original_error e = None) \/
  (exists response,
      transport = Responds response /\ status_code response < 400 /\
      json_loads (text response) = None /\
      exn_kind e = ValidationError /\
      exn_status_code e = None /\
      exn_kind <$> exn_original_error e = Some JSONDecodeError) \/
  (exists cause,
      transport = Fails cause /\
      match exn_kind cause with
      | HttpxTimeoutException =>
        exn_kind e = TimeoutError /\ exn_status_code e = None /\
        exn_original_error e = Some cause
      | HttpxNetworkError =>
        exn_kind e = NetworkError /\ exn_status_code e = None /\
        exn_original_error e = Some cause
      | JSONDecodeError =>
        exn_kind e = ValidationError /\ exn_status_code e = None /\
        exn_original_error e = Some cause
      | _ => e = cause
      end).

Lemma attempt_origin (method : string) (transport : Transport) (e : PyExn) :
  attempt method transport = Raise e -> origin method transport e.
Proof.
  unfold attempt, origin.
  destruct (supported method) eqn:Hm; [|intros [= <-]; by left].
  destruct transport as [response|cause].
  - destruct (400 <=? status_code response) eqn:Hs.
    + apply Z.leb_le in Hs.
      destruct (match json_loads (text response) with
                | Some (JObj _) => _
                | Some _ => _
                | None => _
                end) as [message response_data].
      intros [= <-]. right. left. by exists response.
    + apply Z.leb_gt in Hs.
      destruct (json_loads (text response)) eqn:Hd; [done|].
      intros [= <-]. right. right. left. by exists response.
  - intros [= <-]. do 3 right. exists cause. split; [done|].
    unfold _make_request_except. by destruct (exn_kind cause).
Qed.

Lemma origin_kind (method : string) (transport : Transport) (e : PyExn) :
  origin method transport e ->
  exn_kind e ∉ [HttpxTimeoutException; HttpxNetworkError; JSONDecodeError].
Proof.
  assert (forall k : ExnKind,
            k ∉ [HttpxTimeoutException; HttpxNetworkError; JSONDecodeError] <->
            k ≠ HttpxTimeoutException /\ k ≠ HttpxNetworkError /\
            k ≠ JSONDecodeError) as Hin.
  { intros k. rewrite !not_elem_of_cons. pose proof (not_elem_of_nil k). tauto. }
  rewrite Hin.
  intros [(_ & ->)|[(response & _ & _ & -> & _)|[(response & _ & _ & _ & -> & _)
                    |(cause & _ & Hcause)]]]; try done.
  - unfold STATUS_CODE_TO_EXCEPTION. by repeat case_match.
  - destruct (exn_kind cause) eqn:Hk;
      try (destruct Hcause as (-> & _); done);
      subst e; rewrite Hk; done.
Qed.

(** Every error a request ends with has one of four origins, which its
    fields tell apart: the method was not supported ([ValueError]); the
    server answered with a status of 400 or more (the kind of the status
    table, carrying the status, no original error); the server answered
    below 400 with a body that does not decode (a validation error
    wrapping the decoder's error, no status); or the transport raised, in
    which case a timeout, a network error or a decoding error of the
    transport comes wrapped in the package's timeout, network or validation
    error (no status, the cause as original error) and anything else comes
    as it is.  So a timeout error with a status is the server's 408 or
    504 and one without is the transport's, and no timeout or network
    error of the transport library reaches the caller unwrapped. *)
Theorem make_request_error_origin (method : string)
    (world : nat -> Transport) (e : PyExn) :
  result (_make_request method world) = Raise e ->
  (exn_kind e ∉ [HttpxTimeoutException; HttpxNetworkError; JSONDecodeError]) /\
  exists n, (1 <= n <= 3)%nat /\ origin method (world n) e.
Proof.
  intros Hresult.
  destruct (make_request_result method world) as (n & Hn & Hlast).
  rewrite Hresult in Hlast. symmetry in Hlast.
  apply attempt_origin in Hlast.
  split; [by eapply origin_kind|]. by exists n.
Qed.

End MakeRequestErrors.

Lemma make_request_error_origin_witness :
  let L := sample_loads in
  let slow := lib_error HttpxTimeoutException "read timeout" in
  let r :=
    AsyncLLMRouterClient._make_request "GET"
      (fun _ => AsyncLLMRouterClient.Fails slow) in
  exists e,
    result r = Raise e /\
    exn_kind e ∉ [HttpxTimeoutException; HttpxNetworkError; JSONDecodeError].
Proof.
  intros L slow r.
  exists (AsyncLLMRouterClient._make_request_except slow).
  split; [reflexivity|].
  exact (proj1 (make_request_error_origin "GET"
                  (fun _ => AsyncLLMRouterClient.Fails slow)
                  (AsyncLLMRouterClient._make_request_except slow) eq_refl)).
Defined.

(** ** The status table read backwards *)

Lemma status_kind_cases (status_code : Z) :
  let kind := STATUS_CODE_TO_EXCEPTION status_code in
  (status_code = 400 /\ kind = ValidationError) \/
  (status_code = 401 /\ kind = AuthenticationError) \/
  (status_code = 403 /\ kind = AuthenticationError) \/
  (status_code = 404 /\ kind = ModelNotFoundError) \/
  (status_code = 408 /\ kind = TimeoutError) \/
  (status_code = 429 /\ kind = RateLimitError) \/
  (status_code = 500 /\ kind = InferenceError) \/
  (status_code = 502 /\ kind = NetworkError) \/
  (status_code = 503 /\ kind = NetworkError) \/
  (status_code = 504 /\ kind = TimeoutError) \/
  ((status_code ∉ [400; 401; 403; 404; 408; 429; 500; 502; 503; 504]) /\
   kind = LLMRouterError).
Proof.
  unfold STATUS_CODE_TO_EXCEPTION. simpl.
  destruct (Z.eqb_spec status_code 400); [tauto|].
  destruct (Z.eqb_spec status_code 401); [tauto|].
  destruct (Z.eqb_spec status_code 403); [tauto|].
  destruct (Z.eqb_spec status_code 404); [tauto|].
  destruct (Z.eqb_spec status_code 408); [tauto|].
  destruct (Z.eqb_spec status_code 429); [tauto|].
  destruct (Z.eqb_spec status_code 500); [tauto|].
  destruct (Z.eqb_spec status_code 502); [tauto|].
  destruct (Z.eqb_spec status_code 503); [tauto|].
  destruct (Z.eqb_spec status_code 504); [tauto|].
  do 10 right. split; [|done].
  repeat (apply not_elem_of_cons; split; [done|]). apply not_elem_of_nil.
Qed.

(** Which statuses give which error kind, and what the created error
    carries.  A kind of the table comes from exactly the statuses listed
    for it; every other status, 4xx and 5xx included, gives the generic
    error of the package.  The error always carries the status, no
    original error, and the response data given to it, or an empty object
    when that is missing or falsy. *)
Theorem status_table_inverse (status_code : Z) (message : Message)
    (response_data : option json) :
  let kind := STATUS_CODE_TO_EXCEPTION status_code in
  let e := create_exception_from_response status_code message response_data in
  (kind = ValidationError <-> status_code = 400) /\
  (kind = AuthenticationError <-> status_code = 401 \/ status_code = 403) /\
  (kind = ModelNotFoundError <-> status_code = 404) /\
  (kind = TimeoutError <-> status_code = 408 \/ status_code = 504) /\
  (kind = RateLimitError <-> status_code = 429) /\
  (kind = InferenceError <-> status_code = 500) /\
  (kind = NetworkError <-> status_code = 502 \/ status_code = 503) /\
  (kind = LLMRouterError <->
     status_code ∉ [400; 401; 403; 404; 408; 429; 500; 502; 503; 504]) /\
  exn_kind e = kind /\
  exn_status_code e = Some status_code /\
  exn_original_error e = None /\
  exn_message e = message /\
  exn_response_data e =
    match response_data with
    | Some d => if truthy d then d else JObj []
    | None => JObj []
    end /\
  is_Exception e = true.
Proof.
  intros kind e.
  assert (exn_kind e = kind /\ is_Exception e = true) as [Hkind Hexn].
  { split; [done|]. unfold is_Exception, e, create_exception_from_response,
      new_error. simpl. unfold STATUS_CODE_TO_EXCEPTION. by repeat case_match. }
  assert (forall x : Z,
            x ∈ [400; 401; 403; 404; 408; 429; 500; 502; 503; 504] <->
            x = 400 \/ x = 401 \/ x = 403 \/ x = 404 \/ x = 408 \/
            x = 429 \/ x = 500 \/ x = 502 \/ x = 503 \/ x = 504) as Hin.
  { intros x. rewrite !elem_of_cons, elem_of_nil. tauto. }
  assert (exn_response_data e =
            match response_data with
            | Some d => if truthy d then d else JObj []
            | None => JObj []
            end) as Hdata by done.
  assert (exn_status_code e = Some status_code /\
          exn_original_error e = None /\ exn_message e = message)
    as (Hstatus & Horig & Hmsg) by done.
  pose proof (status_kind_cases status_code) as Hcases. cbv zeta in Hcases.
  fold kind in Hcases. rewrite Hin in Hcases. rewrite Hin.
  clearbody kind e. clear Hin.
  repeat split; try done; try (intros; subst; intuition (discriminate || lia));
    intuition (try congruence; try lia).
Qed.

(** ** What the streaming loop reads *)

Section HttpStreamReads.
Context `{JsonDecoder} `{Pydantic}.
Import AsyncLLMRouterClient.




End HttpStreamReads.

(** * The requests of the HTTP client *)

Section HttpRequests.
Import AsyncLLMRouterSession.

(** The HTTP path needs the options to be an object.  When the dumped
    request has [options] set to anything else (to [None], as for a request
    built with [options=None]), preparing a stream request raises
    [TypeError] before anything is sent, where the socket path replaces
    such options by an empty object.  When the options are an object, or
    absent, the data posted has [stream] set to true in them. *)
Theorem http_stream_needs_options_object (self : t) (data : dict) :
  (forall v,
      dict_lookup data "options" = Some v ->
      (forall o, v ≠ JObj o) ->
      exists e, stream_data self data = Raise e /\ exn_kind e = TypeError) /\
  (dict_lookup data "options" = None \/
   (exists o, dict_lookup data "options" = Some (JObj o)) ->
   exists sent options,
     stream_data self data = Return sent /\
     dict_lookup sent "options" = Some (JObj options) /\
     dict_lookup options "stream" = Some (JBool true) /\
     forall k, k ≠ "options" -> k ≠ "session_id" ->
               dict_lookup sent k = dict_lookup data k).
Proof.
  split.
  - intros v Hv Hno. unfold stream_data, dict_get. rewrite Hv. simpl.
    destruct v; try (eexists; split; reflexivity). by destruct (Hno o).
  - intros Hopt.
    assert (exists o, dict_get data "options" (JObj []) = JObj o) as (o & Ho).
    { unfold dict_get. destruct Hopt as [->|(o & ->)]; simpl; eauto. }
    unfold stream_data. rewrite Ho.
    eexists _, (dict_set o "stream" (JBool true)). split; [reflexivity|].
    assert (forall body : dict,
              dict_lookup body "options"
                = Some (JObj (dict_set o "stream" (JBool true))) ->
              dict_lookup (with_session self body) "options"
                = Some (JObj (dict_set o "stream" (JBool true)))) as Hkeep.
    { intros body Hb. unfold with_session.
      destruct (_session_id self) as [s|]; [|done].
      destruct (bool_decide (s = "")); [done|].
      by rewrite dict_lookup_set_ne. }
    split; [apply Hkeep, dict_lookup_set_eq|].
    split; [apply dict_lookup_set_eq|].
    intros k Hk Hs. unfold with_session.
    destruct (_session_id self) as [s|];
      [destruct (bool_decide (s = ""))|];
      rewrite ?(dict_lookup_set_ne _ "session_id") by done;
      by rewrite !dict_lookup_set_ne by done.
Qed.

(** A session id set on the client goes into the data of every inference
    request and takes the place of the one the request brought along;
    after [clear_session], and likewise when the session id set is the
    empty string, the request data is posted as it is. *)
Theorem session_id_overrides_request (self : t) (session_id : string)
    (data : dict) :
  session_id ≠ "" ->
  let sent := inference_data (set_session_id session_id self) data in
  dict_lookup sent "session_id" = Some (JStr session_id) /\
  (forall k, k ≠ "session_id" -> dict_lookup sent k = dict_lookup data k) /\
  inference_data (clear_session (set_session_id session_id self)) data = data /\
  inference_data (set_session_id "" self) data = data.
Proof.
  intros Hne sent. unfold sent, inference_data, with_session. simpl.
  rewrite bool_decide_eq_false_2 by done.
  split; [apply dict_lookup_set_eq|]. split; [|done].
  intros k Hk. by apply dict_lookup_set_ne.
Qed.

End HttpRequests.

Lemma session_id_overrides_request_witness :
  let sent :=
    AsyncLLMRouterSession.inference_data
      (AsyncLLMRouterSession.set_session_id "s-1" AsyncLLMRouterSession.init)
      [("prompt", JStr "hi"); ("session_id", JStr "mine")] in
  dict_lookup sent "session_id" = Some (JStr "s-1") /\
  dict_lookup sent "prompt" = Some (JStr "hi").
Proof.
  intros sent.
  destruct (session_id_overrides_request AsyncLLMRouterSession.init "s-1"
              [("prompt", JStr "hi"); ("session_id", JStr "mine")])
    as (Hs & Hother & _); [done|].
  split; [exact Hs|]. by rewrite Hother.
Defined.

(** ** The prompt of a chat *)






Section Chat.
Import AsyncLLMRouterSession.





End Chat.


(** * The socket URL of a configuration *)

(** [old in s] *)
Fixpoint occurs (old s : string) : bool :=
  String.prefix old s ||
  match s with
  | EmptyString => false
  | String _ rest => occurs old rest
  end.

Lemma replace_from_cons old new c s :
  RouterConfig.replace_from 0 old new (String c s) =
    if String.prefix old (String c s)
    then new +:+ RouterConfig.replace_from (String.length old - 1) old new s
    else String c (RouterConfig.replace_from 0 old new s).
Proof. done. Qed.

Lemma replace_absent old new s :
  occurs old s = false -> RouterConfig.replace old new s = s.
Proof.
  unfold RouterConfig.replace. induction s as [|c s IH]; [done|].
  intros Hocc. change (occurs old (String c s))
    with (String.prefix old (String c s) || occurs old s) in Hocc.
  apply orb_false_elim in Hocc as [Hp Hs].
  rewrite replace_from_cons, Hp. by rewrite IH.
Qed.

Lemma prefix_app old rest : String.prefix old (old +:+ rest) = true.
Proof.
  induction old as [|c old IH]; simpl; [by destruct rest|].
  by destruct (Ascii.ascii_dec c c).
Qed.

Lemma replace_from_skip old new passed rest :
  RouterConfig.replace_from (String.length passed) old new (passed +:+ rest) =
  RouterConfig.replace_from 0 old new rest.
Proof. induction passed as [|c passed IH]; simpl; [by destruct rest|done]. Qed.

Lemma replace_occurrence c old new rest :
  RouterConfig.replace (String c old) new (String c old +:+ rest) =
  new +:+ RouterConfig.replace (String c old) new rest.
Proof.
  unfold RouterConfig.replace.
  change (String c old +:+ rest) with (String c (old +:+ rest)).
  rewrite replace_from_cons.
  change (String c (old +:+ rest)) with (String c old +:+ rest).
  rewrite prefix_app.
  replace (String.length (String c old) - 1)%nat with (String.length old)
    by (simpl; lia).
  by rewrite replace_from_skip.
Qed.

(** The socket URL of a configuration: a URL that is given is kept; one
    that is not given is the base URL with its scheme swapped, [http] for
    [ws] and [https] for [wss], the rest of the URL unchanged as long as it
    holds no further [http://] or [https://]; a base URL with neither
    scheme anywhere is taken as it is; and without a base URL the socket
    URL stays unset. *)
Theorem websocket_url_swaps_scheme (rest : string) :
  occurs "http://" rest = false ->
  occurs "https://" rest = false ->
  RouterConfig.set_websocket_url None (Some ("http://" +:+ rest))
    = Some ("ws://" +:+ rest) /\
  RouterConfig.set_websocket_url None (Some ("https://" +:+ rest))
    = Some ("wss://" +:+ rest) /\
  RouterConfig.set_websocket_url None (Some rest) = Some rest /\
  RouterConfig.set_websocket_url None None = None /\
  forall url base_url,
    RouterConfig.set_websocket_url (Some url) base_url = Some url.
Proof.
  intros Hhttp Hhttps.
  pose proof (replace_absent "http://" "ws://" rest Hhttp) as H1.
  pose proof (replace_absent "https://" "wss://" rest Hhttps) as H2.
  unfold RouterConfig.set_websocket_url.
  split; [|split; [|split; [|split; [done|by intros url []]]]]; f_equal.
  - rewrite (replace_occurrence _ "ttp://"), H1.
    change (RouterConfig.replace "https://" "wss://" ("ws://" +:+ rest))
      with ("ws://" +:+ RouterConfig.replace "https://" "wss://" rest).
    by rewrite H2.
  - change (RouterConfig.replace "http://" "ws://" ("https://" +:+ rest))
      with ("https://" +:+ RouterConfig.replace "http://" "ws://" rest).
    rewrite H1.
    by rewrite (replace_occurrence _ "ttps://"), H2.
  - by rewrite H1, H2.
Qed.

Lemma websocket_url_swaps_scheme_witness :
  RouterConfig.set_websocket_url None (Some "http://localhost:3000")
    = Some "ws://localhost:3000" /\
  RouterConfig.set_websocket_url None (Some "https://router.example/api")
    = Some "wss://router.example/api".
Proof.
  destruct (websocket_url_swaps_scheme "localhost:3000" eq_refl eq_refl)
    as (Hws & _).
  destruct (websocket_url_swaps_scheme "router.example/api" eq_refl eq_refl)
    as (_ & Hwss & _).
  split; [exact Hws|exact Hwss].
Defined.
